(** * pcd: podcast feed synchroniser

    A shallow embedding of [pcd.go]: the [Podcast] aggregate with [Sync],
    [Load] and [String], the episode downloader, the episode extractor and
    the cache codec ([toGOB64] / [fromGOB64]).

    Go strings are byte strings, so they are [string] (a list of 8-bit
    [ascii]); [len] is [String.length].  Byte slices and streams are
    [list byte].  Go's [int] is [Z]; lengths are [nat].  Functions with a
    pointer receiver return the updated receiver; the network and the file
    system are an explicit [World] threaded through every call.  A Go
    result pair [(v, err)] stays a pair, because the callers assign both
    components before they look at [err].  [Podcast.String] is [String_]
    here.  Calls to [log] are left out: they change neither what a function
    returns nor the state it leaves. *)

From Stdlib Require Import ZArith NArith List String Ascii Lia ZifyNat Bool DecimalString.
From stdpp Require Import gmap strings list.
Import ListNotations.

Local Open Scope string_scope.
Local Open Scope list_scope.

Definition byte : Type := ascii.

(** ** Errors: the package's sentinel values *)

Inductive error : Type :=
| ErrCouldNotSync
| ErrRequestFailed
| ErrAccessDenied
| ErrFilesystemError
| ErrParserIssue
| ErrEncodeError
| ErrFeedNotFound
| ErrCouldNotDownload
| ErrCouldNotReadFromCache
| ErrCouldNotParseContent
| ErrLibrary.
(* [ErrLibrary] stands for an error value produced inside a library (gob,
   base64); the package only logs such values and never returns them from
   an exported function. *)

(** ** Streams *)

(** An [io.Reader] seen as what its successive [Read] calls deliver, and
    whether the stream ends with an error instead of [io.EOF]. *)
Record Reader : Type := mkReader {
  rd_chunks : list (list byte);
  rd_err : bool
}.

Definition rd_data (r : Reader) : list byte := concat (rd_chunks r).

(** A buffer ([bytes.Buffer], or a file's contents) read back: what it
    holds, in one chunk when there is anything to read, and never an
    error. *)
Definition bufferReader (b : list byte) : Reader :=
  {| rd_chunks := match b with [] => [] | _ => [b] end; rd_err := false |}.

(** A nil [io.Reader], as returned next to an error; it is never read. *)
Definition nilReader : Reader := {| rd_chunks := []; rd_err := false |}.

(** An [io.Writer]: the state after a [Write] and whether it succeeded
    (a write is all of the chunk or an error). *)
Class Writer (S : Type) : Type := Write : S -> list byte -> S * bool.

(** [io.MultiWriter(a, b)]: each chunk goes to [a], then to [b]; the first
    failing writer stops the call. *)
#[export] Instance MultiWriter {A B : Type} `{Writer A} `{Writer B} : Writer (A * B) :=
  fun ab p =>
    let '(a', ok) := Write (fst ab) p in
    if ok then
      let '(b', ok') := Write (snd ab) p in ((a', b'), ok')
    else ((a', snd ab), false).

(** The copy loop of [io.Copy]: every chunk read is written to [dst]; a
    failed write stops the loop. *)
Fixpoint copyChunks {S : Type} `{Writer S} (dst : S) (chunks : list (list byte)) : S * bool :=
  match chunks with
  | [] => (dst, true)
  | c :: rest =>
    let '(dst', ok) := Write dst c in
    if ok then copyChunks dst' rest else (dst', false)
  end.

(** [io.Copy(dst, src)]; the [bool] is [err == nil]. *)
Definition io_Copy {S : Type} `{Writer S} (dst : S) (src : Reader) : S * bool :=
  let '(dst', ok) := copyChunks dst (rd_chunks src) in
  (dst', ok && negb (rd_err src)).

(** A writer handed in by the caller, seen from outside: the bytes passed
    to its [Write] so far, and when a [Write] reports an error (as a
    function of what it has seen and of the new chunk). *)
Record Observer : Type := mkObserver {
  obs_seen : list byte;
  obs_fails : list byte -> list byte -> bool
}.

#[export] Instance Observer_Writer : Writer Observer :=
  fun o p =>
    ({| obs_seen := obs_seen o ++ p; obs_fails := obs_fails o |},
     negb (obs_fails o (obs_seen o) p)).

(** ** encoding/base64, [StdEncoding] *)

Module base64.

Definition encodeStd : string :=
  "ABCDEFGHIJKLMNOPQRSTUVWXYZabcdefghijklmnopqrstuvwxyz0123456789+/".

Definition padChar : byte := "="%char.

(** [enc.encode[i]] *)
Definition encode (i : N) : byte :=
  match String.get (N.to_nat i) encodeStd with
  | Some c => c
  | None => padChar
  end.

Fixpoint index_of (c : byte) (s : string) (i : N) : option N :=
  match s with
  | EmptyString => None
  | String d s' => if Ascii.eqb c d then Some i else index_of c s' (N.succ i)
  end.

(** [enc.decodeMap[c]], with [None] for the table's [0xFF]. *)
Definition decodeMap (c : byte) : option N := index_of c encodeStd 0%N.

Definition uint (b : byte) : N := N_of_ascii b.

(** [Encoding.Encode]: three bytes become four characters; a final block of
    one or two bytes is padded. *)
Fixpoint Encode (src : list byte) : list byte :=
  match src with
  | [] => []
  | [a] =>
    let val := N.shiftl (uint a) 16 in
    [encode (N.land (N.shiftr val 18) 63); encode (N.land (N.shiftr val 12) 63);
     padChar; padChar]
  | [a; b] =>
    let val := N.lor (N.shiftl (uint a) 16) (N.shiftl (uint b) 8) in
    [encode (N.land (N.shiftr val 18) 63); encode (N.land (N.shiftr val 12) 63);
     encode (N.land (N.shiftr val 6) 63); padChar]
  | a :: b :: c :: rest =>
    let val := N.lor (N.lor (N.shiftl (uint a) 16) (N.shiftl (uint b) 8)) (uint c) in
    encode (N.land (N.shiftr val 18) 63) :: encode (N.land (N.shiftr val 12) 63)
    :: encode (N.land (N.shiftr val 6) 63) :: encode (N.land val 63)
    :: Encode rest
  end.

(** The streaming encoder returned by [base64.NewEncoder]: [ebuf] holds the
    bytes of an incomplete block, [edst] is the buffer it writes to. *)
Record encoder : Type := mkEncoder {
  ebuf : list byte;
  edst : list byte
}.

Definition NewEncoder (dst : list byte) : encoder :=
  {| ebuf := []; edst := dst |}.

(** [encoder.Write]: complete blocks are encoded and written out, the rest
    (fewer than three bytes) stays in [ebuf]. *)
Definition encoder_Write (e : encoder) (p : list byte) : encoder :=
  let all := ebuf e ++ p in
  let n := (length all / 3 * 3)%nat in
  {| ebuf := skipn n all; edst := edst e ++ Encode (firstn n all) |}.

(** [encoder.Close]: flush the partial block, with padding. *)
Definition encoder_Close (e : encoder) : encoder :=
  {| ebuf := []; edst := edst e ++ Encode (ebuf e) |}.

Definition byte_of (n : N) : byte := ascii_of_N (N.land n 255).

(** One full quantum of [decodeQuantum]. *)
Definition quantum (s1 s2 s3 s4 : N) : N :=
  N.lor (N.lor (N.lor (N.shiftl s1 18) (N.shiftl s2 12)) (N.shiftl s3 6)) s4.

(** [Encoding.Decode] on input without line breaks: the decoded bytes, and
    [false] when the input is corrupt (the bytes decoded before the corrupt
    quantum are still delivered). *)
Fixpoint Decode (src : list byte) : list byte * bool :=
  match src with
  | [] => ([], true)
  | c1 :: c2 :: c3 :: c4 :: rest =>
    match decodeMap c1, decodeMap c2 with
    | Some s1, Some s2 =>
      match decodeMap c3, decodeMap c4 with
      | Some s3, Some s4 =>
        let val := quantum s1 s2 s3 s4 in
        let '(out, ok) := Decode rest in
        (byte_of (N.shiftr val 16) :: byte_of (N.shiftr val 8) :: byte_of val :: out, ok)
      | Some s3, None =>
        if Ascii.eqb c4 padChar then
          let val := quantum s1 s2 s3 0 in
          ([byte_of (N.shiftr val 16); byte_of (N.shiftr val 8)],
           match rest with [] => true | _ => false end)
        else ([], false)
      | None, _ =>
        if Ascii.eqb c3 padChar && Ascii.eqb c4 padChar then
          let val := quantum s1 s2 0 0 in
          ([byte_of (N.shiftr val 16)],
           match rest with [] => true | _ => false end)
        else ([], false)
      end
    | _, _ => ([], false)
    end
  | _ => ([], false)
  end.

Definition isNewline (c : byte) : bool :=
  Ascii.eqb c "010"%char || Ascii.eqb c "013"%char.

(** [base64.NewDecoder(StdEncoding, r)]: line breaks are dropped, the rest
    is decoded; the stream fails when [r] fails or the input is corrupt. *)
Definition NewDecoder (r : Reader) : Reader :=
  let '(out, ok) := Decode (List.filter (fun c => negb (isNewline c)) (rd_data r)) in
  {| rd_chunks := [out]; rd_err := negb ok || rd_err r |}.

End base64.

(** ** The rss package *)

Module rss.

(** Modelled from the spec: the feed document of the repository's [rss]
    package, which is not among the sources: a channel with an item list,
    each item providing a title string, a date string and an enclosure with
    URL and length. *)
Record Title : Type := mkTitle { Title_Title : string }.
Record Date : Type := mkDate { Date_Date : string }.
Record Enclosure : Type := mkEnclosure { Enclosure_URL : string; Enclosure_Length : Z }.
Record Item : Type := mkItem {
  Item_Title : Title;
  Item_Date : Date;
  Item_Enclosure : Enclosure
}.
Record Channel : Type := mkChannel { Items : list Item }.
Record Feed : Type := mkFeed { Feed_Channel : Channel }.

End rss.

(** ** Data model *)

Record Episode (T : Type) : Type := mkEpisode {
  Title : string;
  Date : T;
  URL : string;
  Length : Z
}.
Arguments mkEpisode {T} _ _ _ _.
Arguments Title {T} _.
Arguments Date {T} _.
Arguments URL {T} _.
Arguments Length {T} _.

(** ** Library collaborators

    What the package imports and this development does not define: the
    [time] package, [rss.Parse] and [rss.Layout], [encoding/gob],
    [filepath.Join], URL parsing inside [http.NewRequest], and the rune
    count [fmt] uses for padding.  Every function below is parametric in
    them; [None] is a call that returns an error. *)
Class Lib : Type := {
  Time : Type;                                            (* time.Time *)
  time_Parse : string -> string -> option Time;           (* time.Parse(layout, value) *)
  time_Format : Time -> string -> string;                 (* t.Format(layout) *)
  rss_Layout : string;                                    (* rss.Layout *)
  rss_Parse : Reader -> option rss.Feed;                  (* rss.Parse(content) *)
  gob_Encode : list (Episode Time) -> option (list byte); (* gob.NewEncoder(&b).Encode(v) *)
  gob_Decode : Reader -> option (list (Episode Time));    (* gob.NewDecoder(r).Decode(&v) *)
  filepath_Join : string -> string -> string;             (* filepath.Join(a, b) *)
  url_Parse_ok : string -> bool;                          (* url.Parse succeeds *)
  utf8_RuneCountInString : string -> nat
}.

(** ** net/http *)

Record Request : Type := mkRequest {
  Method : string;
  Request_URL : string;
  BasicAuth : option (string * string)   (* the Authorization header, if set *)
}.

Record Response : Type := mkResponse {
  StatusCode : Z;
  Body : Reader;
  Response_Request : Request
}.

Definition StatusOK : Z := 200.
Definition StatusUnauthorized : Z := 401.
Definition StatusForbidden : Z := 403.
Definition StatusNotFound : Z := 404.
Definition StatusInternalServerError : Z := 500.

Definition SetBasicAuth (req : Request) (username password : string) : Request :=
  {| Method := Method req; Request_URL := Request_URL req;
     BasicAuth := Some (username, password) |}.

(** ** The world: network and file system

    [net] is what the network answers to a request ([None]: a transport
    error); [sent] logs the requests issued; [open_bodies] and [open_files]
    are the response bodies and file handles not yet closed.  [files] maps
    a path to the contents of the file there.  The [_ok] fields say which
    file-system calls succeed. *)
Record World : Type := mkWorld {
  net : Request -> option (Z * Reader);
  sent : list Request;
  open_bodies : list string;
  files : gmap string (list byte);
  open_files : list string;
  mkdir_ok : string -> bool;
  create_ok : string -> bool;
  open_ok : string -> bool;
  write_ok : string -> bool
}.

Definition set_net_state (w : World) (s : list Request) (b : list string) : World :=
  {| net := net w; sent := s; open_bodies := b; files := files w;
     open_files := open_files w; mkdir_ok := mkdir_ok w; create_ok := create_ok w;
     open_ok := open_ok w; write_ok := write_ok w |}.

Definition set_fs_state (w : World) (f : gmap string (list byte)) (o : list string) : World :=
  {| net := net w; sent := sent w; open_bodies := open_bodies w; files := f;
     open_files := o; mkdir_ok := mkdir_ok w; create_ok := create_ok w;
     open_ok := open_ok w; write_ok := write_ok w |}.

(** Remove one occurrence of a handle. *)
Fixpoint release (h : string) (l : list string) : list string :=
  match l with
  | [] => []
  | x :: l' => if String.eqb x h then l' else x :: release h l'
  end.

(** [client.Do(req)]: the request is sent; a response comes with an open
    body. *)
Definition client_Do (req : Request) (w : World) : option Response * World :=
  match net w req with
  | None => (None, set_net_state w (sent w ++ [req]) (open_bodies w))
  | Some (status, body) =>
    (Some {| StatusCode := status; Body := body; Response_Request := req |},
     set_net_state w (sent w ++ [req]) (Request_URL req :: open_bodies w))
  end.

(** [resp.Body.Close()] *)
Definition Body_Close (resp : Response) (w : World) : World :=
  set_net_state w (sent w) (release (Request_URL (Response_Request resp)) (open_bodies w)).

(** ** os *)

(** An [*os.File] is the path it was opened at. *)
Abbreviation File := string (only parsing).

(** [os.MkdirAll(path, os.ModePerm)]; directories are not part of [files]. *)
Definition os_MkdirAll (path : string) (w : World) : bool := mkdir_ok w path.

(** [os.Create(path)]: the file is created or truncated. *)
Definition os_Create (path : string) (w : World) : option File * World :=
  if create_ok w path
  then (Some path, set_fs_state w (<[path := []]> (files w)) (path :: open_files w))
  else (None, w).

(** [os.Open(path)] *)
Definition os_Open (path : string) (w : World) : option File * World :=
  match files w !! path with
  | Some _ =>
    if open_ok w path
    then (Some path, set_fs_state w (files w) (path :: open_files w))
    else (None, w)
  | None => (None, w)
  end.

(** [f.Close()] *)
Definition File_Close (f : File) (w : World) : World :=
  set_fs_state w (files w) (release f (open_files w)).

(** Reading an open file from its start. *)
Definition File_Reader (f : File) (w : World) : Reader :=
  bufferReader (default [] (files w !! f)).

(** An open file as an [io.Writer]: the world changes under it. *)
Record FileWriter : Type := mkFileWriter { fw_file : File; fw_world : World }.

#[export] Instance File_Writer : Writer FileWriter :=
  fun fw p =>
    let w := fw_world fw in
    let f := fw_file fw in
    if write_ok w f
    then ({| fw_file := f;
             fw_world := set_fs_state w (<[f := default [] (files w !! f) ++ p]> (files w))
                                      (open_files w) |}, true)
    else (fw, false).

(** ** strings, fmt *)

(** [strings.Split(s, sep)] for a non-empty [sep]: [cur] is the token being
    read and [skip] counts the bytes of a separator still to pass. *)
Fixpoint Split_from (sep : string) (s : string) (skip : nat) (cur : string) : list string :=
  match s with
  | EmptyString => [cur]
  | String c s' =>
    match skip with
    | S k => Split_from sep s' k cur
    | O =>
      if String.prefix sep s
      then cur :: Split_from sep s' (String.length sep - 1) EmptyString
      else Split_from sep s' 0 (cur ++ String c EmptyString)%string
    end
  end.

Definition strings_Split (s sep : string) : list string := Split_from sep s 0 EmptyString.

Fixpoint spaces (n : nat) : string :=
  match n with
  | O => EmptyString
  | S k => String " " (spaces k)
  end.

(** The verb [%d] *)
Definition fmt_d (z : Z) : string := NilZero.string_of_int (Z.to_int z).

Definition newline : string := String "010" EmptyString.

(** ** The package *)

Section Pcd.

Context {L : Lib}.

Record Podcast : Type := mkPodcast {
  ID : Z;
  Name : string;
  Feed : string;
  Path : string;
  (* Login data if there's authentication involved *)
  Username : string;
  Password : string;
  (* List of episodes *)
  Episodes : list (Episode Time)
}.

(** [p.Episodes = episodes] *)
Definition set_Episodes (p : Podcast) (episodes : list (Episode Time)) : Podcast :=
  {| ID := ID p; Name := Name p; Feed := Feed p; Path := Path p;
     Username := Username p; Password := Password p; Episodes := episodes |}.

(** [http.NewRequest(method, url, nil)] *)
Definition http_NewRequest (method url : string) : option Request :=
  if url_Parse_ok url
  then Some {| Method := method; Request_URL := url; BasicAuth := None |}
  else None.

(** [http.Get(url)] *)
Definition http_Get (url : string) (w : World) : option Response * World :=
  match http_NewRequest "GET" url with
  | None => (None, w)
  | Some req => client_Do req w
  end.

(** One turn of the loop of [parseEpisodes]: an item whose date does not
    parse is skipped, any other is appended. *)
Definition parseEpisodes_step (episodes : list (Episode Time)) (item : rss.Item)
  : list (Episode Time) :=
  match time_Parse rss_Layout (rss.Date_Date (rss.Item_Date item)) with
  | None => episodes
  | Some t =>
    let episode :=
      {| Title := rss.Title_Title (rss.Item_Title item);
         Date := t;
         URL := rss.Enclosure_URL (rss.Item_Enclosure item);
         Length := rss.Enclosure_Length (rss.Item_Enclosure item) |} in
    episodes ++ [episode]
  end.

Definition parseEpisodes (content : Reader) : list (Episode Time) * option error :=
  match rss_Parse content with
  | None => ([], Some ErrCouldNotParseContent)
  | Some feed =>
    (fold_left parseEpisodes_step (rss.Items (rss.Feed_Channel feed)) [], None)
  end.

(** [toGOB64]: the deferred [encoder.Close()] runs when the function
    returns, so the caller reads [dst] after the flush. *)
Definition toGOB64 (episodes : list (Episode Time)) : Reader * option error :=
  match gob_Encode episodes with
  | None => (nilReader, Some ErrLibrary)
  | Some b =>
    let dst := [] in
    let encoder := base64.NewEncoder dst in
    let encoder := base64.encoder_Write encoder b in
    let encoder := base64.encoder_Close encoder in
    (bufferReader (base64.edst encoder), None)
  end.

Definition fromGOB64 (content : Reader) : list (Episode Time) * option error :=
  let decoder := base64.NewDecoder content in
  match gob_Decode decoder with
  | None => ([], Some ErrLibrary)
  | Some episodes => (episodes, None)
  end.

(** [Sync] from the [defer resp.Body.Close()] on: the body is parsed, the
    episodes are stored in [p] and written to the cache file. *)
Definition Sync_fetched (p : Podcast) (resp : Response) (w : World)
  : option error * Podcast * World :=
  let '(err, p, w) :=
    let '(episodes, err) := parseEpisodes (Body resp) in
    let p := set_Episodes p episodes in
    match err with
    | Some _ => (Some ErrParserIssue, p, w)
    | None =>
      if negb (os_MkdirAll (Path p) w) then (Some ErrFilesystemError, p, w)
      else
        let path := filepath_Join (Path p) ".feed" in
        match os_Create path w with
        | (None, w) => (Some ErrFilesystemError, p, w)
        | (Some f, w) =>
          let '(err, w) :=
            let '(blob, err) := toGOB64 (Episodes p) in
            match err with
            | Some _ => (Some ErrEncodeError, w)
            | None =>
              let '(fw, ok) := io_Copy {| fw_file := f; fw_world := w |} blob in
              if ok then (None, fw_world fw) else (Some ErrFilesystemError, fw_world fw)
            end in
          (err, p, File_Close f w)           (* defer f.Close() *)
        end
    end in
  (err, p, Body_Close resp w).               (* defer resp.Body.Close() *)

(** Lines 57 to 65 of [Sync]: the request, with the credentials when
    there is a user name. *)
Definition Sync_request (p : Podcast) : option Request :=
  match http_NewRequest "GET" (Feed p) with
  | None => None
  | Some req =>
    Some (if negb (String.eqb (Username p) "")
          then SetBasicAuth req (Username p) (Password p)
          else req)
  end.

Definition Sync (p : Podcast) (w : World) : option error * Podcast * World :=
  match Sync_request p with
  | None => (Some ErrCouldNotSync, p, w)
  | Some req =>
    match client_Do req w with
    | (None, w) => (Some ErrRequestFailed, p, w)
    | (Some resp, w) =>
      if (StatusCode resp =? StatusOK)%Z then Sync_fetched p resp w
      else if ((StatusCode resp =? StatusForbidden) || (StatusCode resp =? StatusUnauthorized))%Z
      then (Some ErrAccessDenied, p, w)
      else if (StatusCode resp =? StatusNotFound)%Z then (Some ErrFeedNotFound, p, w)
      else if (StatusCode resp =? StatusInternalServerError)%Z then (Some ErrRequestFailed, p, w)
      else (Some ErrRequestFailed, p, w)
    end
  end.

Definition Load (p : Podcast) (w : World) : option error * Podcast * World :=
  let path := filepath_Join (Path p) ".feed" in
  match os_Open path w with
  | (None, w) => (Some ErrCouldNotReadFromCache, p, w)
  | (Some f, w) =>
    let '(err, p) :=
      let '(episodes, err) := fromGOB64 (File_Reader f w) in
      let p := set_Episodes p episodes in
      match err with
      | Some _ => (Some ErrCouldNotReadFromCache, p)
      | None => (None, p)
      end in
    (err, p, File_Close f w)                 (* defer f.Close() *)
  end.

Definition titleLength : nat := 60.

(** The verbs [%-Ns] and [%Ns]: padding counts runes. *)
Definition padRight (width : nat) (s : string) : string :=
  (s ++ spaces (width - utf8_RuneCountInString s))%string.

Definition padLeft (width : nat) (s : string) : string :=
  (spaces (width - utf8_RuneCountInString s) ++ s)%string.

(** The first loop of [String]: the longest title. *)
Definition longestTitle (episodes : list (Episode Time)) : nat :=
  fold_left
    (fun tl episode =>
       if (tl <? String.length (Title episode))%nat then String.length (Title episode) else tl)
    episodes 0%nat.

(** [tl] after the cap. *)
Definition titleColumn (episodes : list (Episode Time)) : nat :=
  let tl := longestTitle episodes in
  if (titleLength <? tl)%nat then titleLength else tl.

(** [title] in the second loop of [String]. *)
Definition shownTitle (episode : Episode Time) : string :=
  if (titleLength <? String.length (Title episode))%nat
  then (String.substring 0 (titleLength - 4) (Title episode) ++ "...")%string
  else Title episode.

(** One line of the listing: [Sprintf("%-4d %-<tl>s %20s\n", ...)]. *)
Definition listingRow (tl index : nat) (episode : Episode Time) : string :=
  (padRight 4 (fmt_d (Z.of_nat index + 1)) ++ " " ++ padRight tl (shownTitle episode)
   ++ " " ++ padLeft 20 (time_Format (Date episode) rss_Layout) ++ newline)%string.

(** The second loop of [String], from index [index] on. *)
Fixpoint listingRows (tl index : nat) (episodes : list (Episode Time)) (sb : string) : string :=
  match episodes with
  | [] => sb
  | episode :: rest => listingRows tl (S index) rest (sb ++ listingRow tl index episode)%string
  end.

Definition String_ (p : Podcast) : string :=
  let sb := ("All episodes of " ++ Name p ++ " (id: " ++ fmt_d (ID p) ++ ")" ++ newline)%string in
  let tl := titleColumn (Episodes p) in
  listingRows tl 0 (Episodes p) sb.

(** [Download]: the [writer] argument is optional and mirrors everything
    written to the file. *)
Definition Download (e : Episode Time) (path : string) (writer : option Observer) (w : World)
  : option error * option Observer * World :=
  match http_Get (URL e) w with
  | (None, w) => (Some ErrCouldNotDownload, writer, w)
  | (Some res, w) =>
    let '(err, writer, w) :=
      if negb (StatusCode res =? 200)%Z then (Some ErrCouldNotDownload, writer, w)
      else
        let tokens := strings_Split (URL e) "/" in
        let filename := List.last tokens EmptyString in
        let fpath := filepath_Join path filename in
        match os_Create fpath w with
        | (None, w) => (Some ErrCouldNotDownload, writer, w)
        | (Some f, w) =>
          let '(err, writer, w) :=
            match writer with
            | Some o =>
              let '(mw, ok) := io_Copy ({| fw_file := f; fw_world := w |}, o) (Body res) in
              (if ok then None else Some ErrCouldNotDownload, Some (snd mw), fw_world (fst mw))
            | None =>
              let '(mw, ok) := io_Copy {| fw_file := f; fw_world := w |} (Body res) in
              (if ok then None else Some ErrCouldNotDownload, None, fw_world mw)
            end in
          (err, writer, File_Close f w)      (* defer f.Close() *)
        end in
    (err, writer, Body_Close res w)          (* defer res.Body.Close() *)
  end.

End Pcd.

(** ** Vocabulary of the specification *)

Section Vocabulary.

Context {L : Lib}.

(** The status table of the feed fetcher, as the specification words it:
    200 proceeds ([None]), 401 and 403 are access denied, 404 is feed not
    found, 500 and any other status is request failed. *)
Definition fetchOutcome (status : Z) : option error :=
  if decide (status = 200%Z) then None
  else if decide (status = 401%Z \/ status = 403%Z) then Some ErrAccessDenied
  else if decide (status = 404%Z) then Some ErrFeedNotFound
  else Some ErrRequestFailed.

(** The episode of a feed item, when its date parses. *)
Definition episodeOf (item : rss.Item) : option (Episode Time) :=
  (fun t =>
     {| Title := rss.Title_Title (rss.Item_Title item);
        Date := t;
        URL := rss.Enclosure_URL (rss.Item_Enclosure item);
        Length := rss.Enclosure_Length (rss.Item_Enclosure item) |})
  <$> time_Parse rss_Layout (rss.Date_Date (rss.Item_Date item)).

Definition dateParses (item : rss.Item) : bool :=
  match time_Parse rss_Layout (rss.Date_Date (rss.Item_Date item)) with
  | Some _ => true
  | None => false
  end.

(** Extraction as the specification words it: a filter-map over the items,
    in document order. *)
Definition extracted (items : list rss.Item) : list (Episode Time) :=
  omap episodeOf items.

(** [s] contains no slash. *)
Definition noSlash (s : string) : Prop :=
  forall pre post : string, s <> (pre ++ "/" ++ post)%string.

(** [name] is the final path segment of [url]: what follows the last
    slash, or all of [url] when it has none. *)
Definition finalSegment (url name : string) : Prop :=
  noSlash name /\ (url = name \/ exists pre : string, url = (pre ++ "/" ++ name)%string).

(** What a step leaves alone outside the file contents: the request log,
    the open bodies, the open files. *)
Definition same_handles (w w' : World) : Prop :=
  sent w' = sent w /\ open_bodies w' = open_bodies w /\ open_files w' = open_files w.

(** The longest title length, as a maximum. *)
Definition maxTitle (episodes : list (Episode Time)) : nat :=
  list_max (map (fun e => String.length (Title e)) episodes).

End Vocabulary.

(** ** A small instance of the libraries, to run the package on

    Times are seconds; a date parses when it is a decimal number; a feed is
    a line ["<rss>"] followed by one line [title|date|url] per item; the
    stand-in for gob writes every field as a length-prefixed string. *)

Module Demo.

Definition parseSeconds (layout value : string) : option nat :=
  Nat.of_uint <$> NilZero.uint_of_string value.

Definition formatSeconds (t : nat) (layout : string) : string :=
  NilZero.string_of_uint (Nat.to_uint t).

Definition parseItem (line : string) : option rss.Item :=
  match strings_Split line "|" with
  | [title; date; url] =>
    Some {| rss.Item_Title := {| rss.Title_Title := title |};
            rss.Item_Date := {| rss.Date_Date := date |};
            rss.Item_Enclosure :=
              {| rss.Enclosure_URL := url;
                 rss.Enclosure_Length := Z.of_nat (String.length url) |} |}
  | _ => None
  end.

Definition parseFeed (content : Reader) : option rss.Feed :=
  if rd_err content then None
  else
    match strings_Split (string_of_list_ascii (rd_data content)) newline with
    | first :: lines =>
      if String.eqb first "<rss>"
      then items ← mapM parseItem lines;
           Some {| rss.Feed_Channel := {| rss.Items := items |} |}
      else None
    | [] => None
    end.

Definition putString (s : string) : option (list byte) :=
  if (String.length s <? 256)%nat
  then Some (ascii_of_nat (String.length s) :: list_ascii_of_string s)
  else None.

Definition getString (bs : list byte) : option (string * list byte) :=
  match bs with
  | [] => None
  | b :: rest =>
    let n := nat_of_ascii b in
    if (n <=? length rest)%nat
    then Some (string_of_list_ascii (firstn n rest), skipn n rest)
    else None
  end.

Definition putEpisode (e : Episode nat) : option (list byte) :=
  t ← putString (Title e);
  d ← putString (NilZero.string_of_uint (Nat.to_uint (Date e)));
  u ← putString (URL e);
  l ← putString (fmt_d (Length e));
  Some (t ++ d ++ u ++ l).

Definition getEpisode (bs : list byte) : option (Episode nat * list byte) :=
  '(t, bs) ← getString bs;
  '(d, bs) ← getString bs;
  '(u, bs) ← getString bs;
  '(l, bs) ← getString bs;
  d ← NilZero.uint_of_string d;
  l ← NilZero.int_of_string l;
  Some ({| Title := t; Date := Nat.of_uint d; URL := u; Length := Z.of_int l |}, bs).

Fixpoint getEpisodes (n : nat) (bs : list byte) : option (list (Episode nat)) :=
  match n with
  | O => match bs with [] => Some [] | _ => None end
  | S k =>
    '(e, bs) ← getEpisode bs;
    es ← getEpisodes k bs;
    Some (e :: es)
  end.

Definition encodeEpisodes (episodes : list (Episode nat)) : option (list byte) :=
  if (length episodes <? 256)%nat
  then bs ← mapM putEpisode episodes;
       Some (ascii_of_nat (length episodes) :: concat bs)
  else None.

Definition decodeEpisodes (r : Reader) : option (list (Episode nat)) :=
  if rd_err r then None
  else
    match rd_data r with
    | [] => None
    | b :: rest => getEpisodes (nat_of_ascii b) rest
    end.

Definition joinPath (a b : string) : string := (a ++ "/" ++ b)%string.

Definition lib : Lib :=
  {| Time := nat;
     time_Parse := parseSeconds;
     time_Format := formatSeconds;
     rss_Layout := "seconds";
     rss_Parse := parseFeed;
     gob_Encode := encodeEpisodes;
     gob_Decode := decodeEpisodes;
     filepath_Join := joinPath;
     url_Parse_ok := fun url => negb (String.eqb url "");
     utf8_RuneCountInString := String.length |}.

Definition feedBody : Reader :=
  bufferReader (list_ascii_of_string
    ("<rss>" ++ newline ++ "First|100|http://media.example/a/one.mp3" ++ newline
     ++ "Undated|yesterday|http://media.example/a/two.mp3" ++ newline
     ++ "Third|300|http://media.example/a/three.mp3")%string).

Definition mediaBody : Reader :=
  {| rd_chunks := [list_ascii_of_string "ID3"; list_ascii_of_string "audio"];
     rd_err := false |}.

(** A server: a feed, a page that is no feed, a feed behind a password, a
    media file, a path with a server error; nothing else exists, and one
    host is unreachable. *)
Definition server (req : Request) : option (Z * Reader) :=
  let url := Request_URL req in
  if String.eqb url "http://feed.example/rss" then Some (200%Z, feedBody)
  else if String.eqb url "http://feed.example/html"
  then Some (200%Z, bufferReader (list_ascii_of_string "<html>"))
  else if String.eqb url "http://feed.example/private"
  then match BasicAuth req with
       | Some _ => Some (200%Z, feedBody)
       | None => Some (401%Z, bufferReader [])
       end
  else if String.eqb url "http://media.example/a/one.mp3" then Some (200%Z, mediaBody)
  else if String.eqb url "http://feed.example/broken" then Some (500%Z, bufferReader [])
  else if String.prefix "http://down.example/" url then None
  else Some (404%Z, bufferReader []).

(** A machine with an empty disk on which everything is permitted, except
    below [/readonly]. *)
Definition world : World :=
  {| net := server; sent := []; open_bodies := [];
     files := ∅; open_files := [];
     mkdir_ok := fun path => negb (String.prefix "/readonly" path);
     create_ok := fun path => negb (String.prefix "/readonly" path);
     open_ok := fun _ => true;
     write_ok := fun _ => true |}.

Definition episode0 : Episode nat :=
  {| Title := "Pilot"; Date := 7%nat; URL := "http://media.example/a/one.mp3"; Length := 8 |}.

(** A podcast that already holds one episode in memory. *)
Definition podcast (feed path : string) : @Podcast lib :=
  @mkPodcast lib 1 "Demo" feed path "" "" [episode0].

Definition podcastAs (username password : string) : @Podcast lib :=
  @mkPodcast lib 2 "Private" "http://feed.example/private" "/pods/private"
             username password [].

(** The machine with a cache file for [/pods/demo] already on disk. *)
Definition worldWithCache (content : string) : World :=
  set_fs_state world {[ "/pods/demo/.feed" := list_ascii_of_string content ]} [].

(** The feed document behind [feedBody]. *)
Definition feedItem (title date url : string) : rss.Item :=
  {| rss.Item_Title := {| rss.Title_Title := title |};
     rss.Item_Date := {| rss.Date_Date := date |};
     rss.Item_Enclosure :=
       {| rss.Enclosure_URL := url;
          rss.Enclosure_Length := Z.of_nat (String.length url) |} |}.

Definition feedDocument : rss.Feed :=
  {| rss.Feed_Channel :=
       {| rss.Items :=
            [feedItem "First" "100" "http://media.example/a/one.mp3";
             feedItem "Undated" "yesterday" "http://media.example/a/two.mp3";
             feedItem "Third" "300" "http://media.example/a/three.mp3"] |} |}.

(** An episode whose title has 61 bytes. *)
Definition longEpisode : Episode nat :=
  {| Title := "The sixty-one byte title of an episode that is rather wordy..";
     Date := 9%nat; URL := "http://media.example/a/long.mp3"; Length := 1 |}.

(** An observer that records and never fails. *)
Definition recorder : Observer :=
  {| obs_seen := []; obs_fails := fun _ _ => false |}.

End Demo.

(** ** More vocabulary *)

(** A byte a base64 text may hold: a character of the alphabet or the
    padding character. *)
Definition isBase64Char (c : byte) : bool :=
  match base64.decodeMap c with
  | Some _ => true
  | None => Ascii.eqb c base64.padChar
  end.

(** The worlds [w] and [w'] answer alike: the same network and the same
    outcomes of the file-system calls. *)
Definition same_behaviour (w w' : World) : Prop :=
  net w' = net w /\ mkdir_ok w' = mkdir_ok w /\ create_ok w' = create_ok w /\
  open_ok w' = open_ok w /\ write_ok w' = write_ok w.

(** ** More of the small instance *)

Module DemoMore.

Fixpoint repeatString (n : nat) (s : string) : string :=
  match n with
  | O => EmptyString
  | S k => (s ++ repeatString k s)%string
  end.

(** A feed whose only item has a title of 300 bytes, more than the
    stand-in for gob writes. *)
Definition wordyFeed : Reader :=
  bufferReader (list_ascii_of_string
    ("<rss>" ++ newline ++ repeatString 300 "x" ++ "|100|http://media.example/a/one.mp3")%string).

Definition wordyServer (req : Request) : option (Z * Reader) :=
  if String.eqb (Request_URL req) "http://feed.example/wordy"
  then Some (200%Z, wordyFeed)
  else Demo.server req.

(** The machine of [Demo.world] with a cache for [/pods/demo] on disk and a
    server that also has the wordy feed. *)
Definition world : World :=
  {| net := wordyServer; sent := []; open_bodies := [];
     files := {[ "/pods/demo/.feed" := list_ascii_of_string "AA==" ]};
     open_files := [];
     mkdir_ok := mkdir_ok Demo.world; create_ok := create_ok Demo.world;
     open_ok := open_ok Demo.world; write_ok := write_ok Demo.world |}.

(** An observer that reports an error on every write. *)
Definition failing : Observer :=
  {| obs_seen := []; obs_fails := fun _ _ => true |}.

(** A feed in which no date parses, and its document. *)
Definition undatedFeed : Reader :=
  bufferReader (list_ascii_of_string
    ("<rss>" ++ newline ++ "A|soon|http://media.example/a/a.mp3" ++ newline
     ++ "B|later|http://media.example/a/b.mp3")%string).

Definition undatedDocument : rss.Feed :=
  {| rss.Feed_Channel :=
       {| rss.Items :=
            [Demo.feedItem "A" "soon" "http://media.example/a/a.mp3";
             Demo.feedItem "B" "later" "http://media.example/a/b.mp3"] |} |}.

(** An episode whose media URL the server answers with status 500. *)
Definition brokenEpisode : Episode nat :=
  {| Title := "Broken"; Date := 3%nat; URL := "http://feed.example/broken"; Length := 0 |}.

End DemoMore.

(** * Facts about base64 *)

Module b64facts.
Import base64.
Local Open Scope N_scope.

Lemma list_ind3 {A : Type} (P : list A -> Prop) :
  P [] -> (forall a, P [a]) -> (forall a b, P [a; b]) ->
  (forall a b c l, P l -> P (a :: b :: c :: l)) ->
  forall l, P l.
Proof.
  intros H0 H1 H2 H3 l.
  enough (P l /\ (forall a, P (a :: l)) /\ (forall a b, P (a :: b :: l))) by tauto.
  induction l as [| x l (IH0 & IH1 & IH2)].
  - auto.
  - repeat split; auto.
Qed.

Lemma lor_mul_pow2_add (c b k : N) : b < 2 ^ k -> N.lor (c * 2 ^ k) b = c * 2 ^ k + b.
Proof.
  intros Hb.
  assert (Hland : N.land (c * 2 ^ k) b = 0).
  { apply N.bits_inj. intros n. rewrite N.land_spec, N.bits_0.
    destruct (N.lt_ge_cases n k) as [Hn | Hn].
    - rewrite N.mul_pow2_bits_low by exact Hn. reflexivity.
    - destruct (N.eq_dec b 0) as [-> | Hb0].
      + rewrite N.bits_0. apply andb_false_r.
      + rewrite (N.bits_above_log2 b n), andb_false_r; [reflexivity |].
        apply N.log2_lt_pow2; [lia |].
        apply N.lt_le_trans with (2 ^ k); [exact Hb |].
        apply N.pow_le_mono_r; lia. }
  rewrite <- N.lxor_lor by exact Hland.
  rewrite <- N.add_nocarry_lxor by exact Hland.
  reflexivity.
Qed.

Lemma land63 (n : N) : N.land n 63 = n mod 64.
Proof. change 63 with (N.ones 6). rewrite N.land_ones. reflexivity. Qed.

Lemma land255 (n : N) : N.land n 255 = n mod 256.
Proof. change 255 with (N.ones 8). rewrite N.land_ones. reflexivity. Qed.

Ltac arith := zify; Z.to_euclidean_division_equations; lia.


Lemma lor_add_disjoint (a b k : N) :
  a mod 2 ^ k = 0 -> b < 2 ^ k -> N.lor a b = a + b.
Proof.
  intros Ha Hb.
  assert (E : a = a / 2 ^ k * 2 ^ k).
  { pose proof (N.div_mod a (2 ^ k)) as D.
    assert (2 ^ k <> 0) by (apply N.pow_nonzero; lia).
    rewrite Ha in D. lia. }
  rewrite E. apply lor_mul_pow2_add; exact Hb.
Qed.

Lemma shiftl16 (x : N) : N.shiftl x 16 = x * 65536.
Proof. rewrite N.shiftl_mul_pow2. reflexivity. Qed.
Lemma shiftl8 (x : N) : N.shiftl x 8 = x * 256.
Proof. rewrite N.shiftl_mul_pow2. reflexivity. Qed.
Lemma shiftl18 (x : N) : N.shiftl x 18 = x * 262144.
Proof. rewrite N.shiftl_mul_pow2. reflexivity. Qed.
Lemma shiftl12 (x : N) : N.shiftl x 12 = x * 4096.
Proof. rewrite N.shiftl_mul_pow2. reflexivity. Qed.
Lemma shiftl6 (x : N) : N.shiftl x 6 = x * 64.
Proof. rewrite N.shiftl_mul_pow2. reflexivity. Qed.
Lemma shiftr18 (x : N) : N.shiftr x 18 = x / 262144.
Proof. rewrite N.shiftr_div_pow2. reflexivity. Qed.
Lemma shiftr16 (x : N) : N.shiftr x 16 = x / 65536.
Proof. rewrite N.shiftr_div_pow2. reflexivity. Qed.
Lemma shiftr12 (x : N) : N.shiftr x 12 = x / 4096.
Proof. rewrite N.shiftr_div_pow2. reflexivity. Qed.
Lemma shiftr8 (x : N) : N.shiftr x 8 = x / 256.
Proof. rewrite N.shiftr_div_pow2. reflexivity. Qed.
Lemma shiftr6 (x : N) : N.shiftr x 6 = x / 64.
Proof. rewrite N.shiftr_div_pow2. reflexivity. Qed.

Ltac shifts := rewrite ?shiftl16, ?shiftl8, ?shiftl18, ?shiftl12, ?shiftl6,
  ?shiftr18, ?shiftr16, ?shiftr12, ?shiftr8, ?shiftr6, ?land63, ?land255.

Lemma val3_arith (x y z : N) :
  y < 256 -> z < 256 ->
  N.lor (N.lor (N.shiftl x 16) (N.shiftl y 8)) z = x * 65536 + y * 256 + z.
Proof.
  intros Hy Hz. shifts.
  rewrite (lor_add_disjoint (x * 65536) (y * 256) 16) by (change (2 ^ 16) with 65536; arith).
  rewrite (lor_add_disjoint _ z 8) by (change (2 ^ 8) with 256; arith).
  reflexivity.
Qed.

Lemma val2_arith (x y : N) :
  y < 256 -> N.lor (N.shiftl x 16) (N.shiftl y 8) = x * 65536 + y * 256.
Proof.
  intros Hy. shifts.
  rewrite (lor_add_disjoint (x * 65536) (y * 256) 16) by (change (2 ^ 16) with 65536; arith).
  reflexivity.
Qed.

Lemma quantum_arith (s1 s2 s3 s4 : N) :
  s2 < 64 -> s3 < 64 -> s4 < 64 ->
  quantum s1 s2 s3 s4 = s1 * 262144 + s2 * 4096 + s3 * 64 + s4.
Proof.
  intros H2 H3 H4. unfold quantum. shifts.
  rewrite (lor_add_disjoint (s1 * 262144) (s2 * 4096) 18) by (change (2 ^ 18) with 262144; arith).
  rewrite (lor_add_disjoint _ (s3 * 64) 12) by (change (2 ^ 12) with 4096; arith).
  rewrite (lor_add_disjoint _ s4 6) by (change (2 ^ 6) with 64; arith).
  reflexivity.
Qed.

Lemma decodeMap_encode (i : N) : i < 64 -> decodeMap (encode i) = Some i.
Proof.
  intros Hi. destruct i as [| p]; [reflexivity |].
  do 6 (destruct p as [p | p |]; try reflexivity); exfalso; lia.
Qed.

Lemma byte_of_uint (a : byte) : byte_of (uint a) = a.
Proof.
  unfold byte_of, uint. rewrite land255.
  rewrite N.mod_small by apply N_ascii_bounded.
  apply ascii_N_embedding.
Qed.

(** The four sextets of a 24-bit value are below 64 and put the value
    together again. *)
Lemma sextets (v : N) :
  v / 262144 mod 64 < 64 /\ v / 4096 mod 64 < 64 /\ v / 64 mod 64 < 64 /\ v mod 64 < 64 /\
  (v < 16777216 ->
   v / 262144 mod 64 * 262144 + v / 4096 mod 64 * 4096 + v / 64 mod 64 * 64 + v mod 64 = v).
Proof. repeat apply conj; arith. Qed.

Lemma quantum_sextets (v : N) :
  v < 16777216 ->
  quantum (N.land (N.shiftr v 18) 63) (N.land (N.shiftr v 12) 63)
          (N.land (N.shiftr v 6) 63) (N.land v 63) = v.
Proof.
  intros Hv. shifts. destruct (sextets v) as (B1 & B2 & B3 & B4 & Q).
  rewrite quantum_arith by assumption. exact (Q Hv).
Qed.

Lemma byte_of_eq (n m : N) : n mod 256 = m mod 256 -> byte_of n = byte_of m.
Proof. intros E. unfold byte_of. rewrite !land255, E. reflexivity. Qed.

(** The four characters of a full block decode to its three bytes. *)
Lemma block3 (a b c : byte) :
  let val := N.lor (N.lor (N.shiftl (uint a) 16) (N.shiftl (uint b) 8)) (uint c) in
  let s1 := N.land (N.shiftr val 18) 63 in
  let s2 := N.land (N.shiftr val 12) 63 in
  let s3 := N.land (N.shiftr val 6) 63 in
  let s4 := N.land val 63 in
  s1 < 64 /\ s2 < 64 /\ s3 < 64 /\ s4 < 64 /\
  byte_of (N.shiftr (quantum s1 s2 s3 s4) 16) = a /\
  byte_of (N.shiftr (quantum s1 s2 s3 s4) 8) = b /\
  byte_of (quantum s1 s2 s3 s4) = c.
Proof.
  intros val s1 s2 s3 s4.
  pose proof (N_ascii_bounded a) as Ha. pose proof (N_ascii_bounded b) as Hb.
  pose proof (N_ascii_bounded c) as Hc. fold (uint a) in Ha. fold (uint b) in Hb. fold (uint c) in Hc.
  assert (Hval : val = uint a * 65536 + uint b * 256 + uint c) by (apply val3_arith; assumption).
  assert (Hv : val < 16777216) by lia.
  subst s1 s2 s3 s4. rewrite (quantum_sextets val Hv).
  destruct (sextets val) as (B1 & B2 & B3 & B4 & _). shifts.
  repeat split; try assumption.
  - transitivity (byte_of (uint a)); [| apply byte_of_uint]. apply byte_of_eq. rewrite Hval. arith.
  - transitivity (byte_of (uint b)); [| apply byte_of_uint]. apply byte_of_eq. rewrite Hval. arith.
  - transitivity (byte_of (uint c)); [| apply byte_of_uint]. apply byte_of_eq. rewrite Hval. arith.
Qed.

Lemma block2 (a b : byte) :
  let val := N.lor (N.shiftl (uint a) 16) (N.shiftl (uint b) 8) in
  let s1 := N.land (N.shiftr val 18) 63 in
  let s2 := N.land (N.shiftr val 12) 63 in
  let s3 := N.land (N.shiftr val 6) 63 in
  s1 < 64 /\ s2 < 64 /\ s3 < 64 /\
  byte_of (N.shiftr (quantum s1 s2 s3 0) 16) = a /\
  byte_of (N.shiftr (quantum s1 s2 s3 0) 8) = b.
Proof.
  intros val s1 s2 s3.
  pose proof (N_ascii_bounded a) as Ha. pose proof (N_ascii_bounded b) as Hb.
  fold (uint a) in Ha. fold (uint b) in Hb.
  assert (Hval : val = uint a * 65536 + uint b * 256) by (apply val2_arith; assumption).
  assert (Hv : val < 16777216) by lia.
  assert (H4 : N.land val 63 = 0) by (shifts; rewrite Hval; arith).
  pose proof (quantum_sextets val Hv) as Q. rewrite H4 in Q.
  subst s1 s2 s3. rewrite Q.
  destruct (sextets val) as (B1 & B2 & B3 & _). shifts.
  repeat split; try assumption.
  - transitivity (byte_of (uint a)); [| apply byte_of_uint]. apply byte_of_eq. rewrite Hval. arith.
  - transitivity (byte_of (uint b)); [| apply byte_of_uint]. apply byte_of_eq. rewrite Hval. arith.
Qed.

Lemma block1 (a : byte) :
  let val := N.shiftl (uint a) 16 in
  let s1 := N.land (N.shiftr val 18) 63 in
  let s2 := N.land (N.shiftr val 12) 63 in
  s1 < 64 /\ s2 < 64 /\ byte_of (N.shiftr (quantum s1 s2 0 0) 16) = a.
Proof.
  intros val s1 s2.
  pose proof (N_ascii_bounded a) as Ha. fold (uint a) in Ha.
  assert (Hval : val = uint a * 65536) by (subst val; shifts; reflexivity).
  assert (Hv : val < 16777216) by lia.
  assert (H3 : N.land (N.shiftr val 6) 63 = 0) by (shifts; rewrite Hval; arith).
  assert (H4 : N.land val 63 = 0) by (shifts; rewrite Hval; arith).
  pose proof (quantum_sextets val Hv) as Q. rewrite H3, H4 in Q.
  subst s1 s2. rewrite Q.
  destruct (sextets val) as (B1 & B2 & _). shifts.
  repeat split; try assumption.
  transitivity (byte_of (uint a)); [| apply byte_of_uint]. apply byte_of_eq. rewrite Hval. arith.
Qed.

Lemma decodeMap_padChar : decodeMap padChar = None.
Proof. reflexivity. Qed.

(** [Decode] inverts [Encode]. *)
Lemma Decode_Encode (src : list byte) : Decode (Encode src) = (src, true).
Proof.
  induction src as [| a | a b | a b c rest IH] using list_ind3.
  - reflexivity.
  - destruct (block1 a) as (H1 & H2 & Ea).
    cbn [Encode Decode]. rewrite !decodeMap_encode by assumption.
    rewrite decodeMap_padChar. cbn. rewrite Ea. reflexivity.
  - destruct (block2 a b) as (H1 & H2 & H3 & Ea & Eb).
    cbn [Encode Decode]. rewrite !decodeMap_encode by assumption.
    rewrite decodeMap_padChar. cbn. rewrite Ea, Eb. reflexivity.
  - destruct (block3 a b c) as (H1 & H2 & H3 & H4 & Ea & Eb & Ec).
    cbn [Encode Decode]. rewrite !decodeMap_encode by assumption.
    rewrite IH, Ea, Eb, Ec. reflexivity.
Qed.


Lemma decodeMap_not_newline (c : byte) (i : N) :
  decodeMap c = Some i -> isNewline c = false.
Proof.
  intros H. unfold isNewline.
  destruct (Ascii.eqb_spec c "010"%char) as [-> | _]; [discriminate H |].
  destruct (Ascii.eqb_spec c "013"%char) as [-> | _]; [discriminate H |].
  reflexivity.
Qed.

Lemma encode_not_newline (i : N) : i < 64 -> isNewline (encode i) = false.
Proof. intros Hi. eapply decodeMap_not_newline, decodeMap_encode, Hi. Qed.

Lemma Encode_no_newline (src : list byte) :
  List.filter (fun c => negb (isNewline c)) (Encode src) = Encode src.
Proof.
  induction src as [| a | a b | a b c rest IH] using list_ind3.
  - reflexivity.
  - destruct (block1 a) as (H1 & H2 & _).
    cbn [Encode List.filter]. rewrite !encode_not_newline by assumption. reflexivity.
  - destruct (block2 a b) as (H1 & H2 & H3 & _).
    cbn [Encode List.filter]. rewrite !encode_not_newline by assumption. reflexivity.
  - destruct (block3 a b c) as (H1 & H2 & H3 & H4 & _).
    cbn [Encode List.filter]. rewrite !encode_not_newline by assumption.
    cbn [negb]. rewrite IH. reflexivity.
Qed.

Lemma Encode_app (l1 l2 : list byte) :
  (length l1 mod 3 = 0)%nat -> Encode (l1 ++ l2) = Encode l1 ++ Encode l2.
Proof.
  induction l1 as [| a | a b | a b c rest IH] using list_ind3; intros Hlen.
  - reflexivity.
  - discriminate Hlen.
  - discriminate Hlen.
  - cbn [length] in Hlen. cbn [Encode app]. rewrite IH; [reflexivity |].
    revert Hlen. generalize (length rest). intros n Hn. arith.
Qed.

(** Writing a whole buffer to a fresh streaming encoder and closing it
    leaves the encoding of the buffer in the destination. *)
Lemma encoder_Write_Close (p : list byte) :
  edst (encoder_Close (encoder_Write (NewEncoder []) p)) = Encode p.
Proof.
  unfold encoder_Close, encoder_Write, NewEncoder. cbn [ebuf edst app].
  set (n := (length p / 3 * 3)%nat).
  rewrite <- (firstn_skipn n p) at 3.
  rewrite Encode_app; [reflexivity |].
  rewrite length_firstn. subst n. generalize (length p). intros m. arith.
Qed.
End b64facts.

(** * The cache codec *)

Section Codec.

Context {L : Lib}.

Lemma rd_data_bufferReader (b : list byte) : rd_data (bufferReader b) = b.
Proof.
  unfold rd_data, bufferReader. cbn [rd_chunks].
  destruct b; cbn [concat]; [reflexivity | apply app_nil_r].
Qed.

Lemma toGOB64_encoded (xs : list (Episode Time)) (b : list byte) :
  gob_Encode xs = Some b ->
  toGOB64 xs = (bufferReader (base64.Encode b), None).
Proof.
  intros E. unfold toGOB64. rewrite E, b64facts.encoder_Write_Close. reflexivity.
Qed.

Lemma NewDecoder_blob (b : list byte) :
  base64.NewDecoder (bufferReader (base64.Encode b)) = {| rd_chunks := [b]; rd_err := false |}.
Proof.
  unfold base64.NewDecoder. rewrite rd_data_bufferReader.
  rewrite b64facts.Encode_no_newline, b64facts.Decode_Encode. reflexivity.
Qed.

(** C2. Decoding the encoding of a sequence of episodes succeeds and gives
    the sequence back, the empty one included, for every sequence that gob
    itself encodes to bytes [b] and decodes back from a stream of [b]. *)
Theorem fromGOB64_toGOB64 (xs : list (Episode Time)) (b : list byte) :
  gob_Encode xs = Some b ->
  gob_Decode {| rd_chunks := [b]; rd_err := false |} = Some xs ->
  exists blob : Reader,
    toGOB64 xs = (blob, None) /\ fromGOB64 blob = (xs, None).
Proof.
  intros Henc Hdec. exists (bufferReader (base64.Encode b)).
  split; [apply toGOB64_encoded, Henc |].
  unfold fromGOB64. rewrite NewDecoder_blob, Hdec. reflexivity.
Qed.

End Codec.

(** * Extraction *)

Section Extraction.

Context {L : Lib}.

Lemma parseEpisodes_step_episodeOf (episodes : list (Episode Time)) (item : rss.Item) :
  parseEpisodes_step episodes item = episodes ++ omap episodeOf [item].
Proof.
  unfold parseEpisodes_step, episodeOf. cbn [omap list_omap].
  destruct (time_Parse rss_Layout (rss.Date_Date (rss.Item_Date item))); cbn.
  - reflexivity.
  - symmetry. apply app_nil_r.
Qed.

(** The loop appends to what it has: an invariant of the accumulator. *)
Lemma parseEpisodes_loop (items : list rss.Item) (episodes : list (Episode Time)) :
  fold_left parseEpisodes_step items episodes = episodes ++ extracted items.
Proof.
  revert episodes. induction items as [| item items IH]; intros episodes.
  - cbn. symmetry. apply app_nil_r.
  - cbn [fold_left]. rewrite IH, parseEpisodes_step_episodeOf.
    rewrite <- app_assoc.
    change (item :: items) with ([item] ++ items).
    unfold extracted. rewrite omap_app. reflexivity.
Qed.

Lemma extracted_filter (items : list rss.Item) :
  length (extracted items) = length (List.filter dateParses items).
Proof.
  induction items as [| item items IH]; [reflexivity |].
  unfold extracted in *. cbn [omap list_omap List.filter].
  unfold episodeOf at 1, dateParses at 1.
  destruct (time_Parse rss_Layout (rss.Date_Date (rss.Item_Date item))); cbn; congruence.
Qed.

Lemma filter_split_length {A : Type} (f : A -> bool) (l : list A) :
  length (List.filter f l) + length (List.filter (fun x => negb (f x)) l) = length l.
Proof.
  induction l as [| x l IH]; [reflexivity |].
  cbn [List.filter]. destruct (f x); cbn; lia.
Qed.

Lemma extracted_pointwise (items : list rss.Item) :
  Forall2 (fun item e => episodeOf item = Some e)
          (List.filter dateParses items) (extracted items).
Proof.
  induction items as [| item items IH]; [constructor |].
  unfold extracted in *. cbn [omap list_omap List.filter].
  unfold dateParses at 1.
  destruct (episodeOf item) as [e |] eqn:E; unfold episodeOf in E;
    destruct (time_Parse rss_Layout (rss.Date_Date (rss.Item_Date item))) eqn:T;
    try discriminate E.
  - constructor; [| exact IH]. unfold episodeOf. rewrite T. exact E.
  - exact IH.
Qed.

(** C4. Whenever the feed document parses, extraction succeeds, whatever
    the dates are, and returns the episodes of the items whose date parses,
    in document order and nothing else: with N items of which K have an
    unparseable date, N - K episodes. *)
Theorem parseEpisodes_filter_map (content : Reader) (feed : rss.Feed) :
  rss_Parse content = Some feed ->
  let items := rss.Items (rss.Feed_Channel feed) in
  let K := length (List.filter (fun item => negb (dateParses item)) items) in
  parseEpisodes content = (extracted items, None) /\
  length (fst (parseEpisodes content)) = length items - K /\
  Forall2 (fun item e => episodeOf item = Some e)
          (List.filter dateParses items) (fst (parseEpisodes content)).
Proof.
  intros Hparse items K.
  assert (E : parseEpisodes content = (extracted items, None)).
  { unfold parseEpisodes. rewrite Hparse. fold items.
    rewrite parseEpisodes_loop. reflexivity. }
  rewrite E. cbn [fst]. repeat split.
  - rewrite extracted_filter. subst K.
    pose proof (filter_split_length dateParses items). lia.
  - apply extracted_pointwise.
Qed.

End Extraction.


(** * Frame properties of the file operations *)

Lemma same_handles_refl (w : World) : same_handles w w.
Proof. repeat split. Qed.

Lemma same_handles_trans (w1 w2 w3 : World) :
  same_handles w1 w2 -> same_handles w2 w3 -> same_handles w1 w3.
Proof. unfold same_handles. intuition congruence. Qed.

Lemma File_Write_frame (fw fw' : FileWriter) (p : list byte) (ok : bool) :
  Write fw p = (fw', ok) ->
  fw_file fw' = fw_file fw /\ same_handles (fw_world fw) (fw_world fw').
Proof.
  unfold Write, File_Writer. destruct (write_ok (fw_world fw) (fw_file fw));
    intros [= <- <-]; repeat split.
Qed.

Lemma copyChunks_file_frame (chunks : list (list byte)) (fw fw' : FileWriter) (ok : bool) :
  copyChunks fw chunks = (fw', ok) ->
  fw_file fw' = fw_file fw /\ same_handles (fw_world fw) (fw_world fw').
Proof.
  revert fw. induction chunks as [| c rest IH]; intros fw; cbn [copyChunks].
  - intros [= <- <-]. split; [reflexivity | apply same_handles_refl].
  - destruct (Write fw c) as [fw1 ok1] eqn:W.
    apply File_Write_frame in W as [Hf Hw].
    destruct ok1.
    + intros H. apply IH in H as [Hf' Hw']. split; [congruence |].
      eapply same_handles_trans; eassumption.
    + intros [= <- <-]. split; assumption.
Qed.

Lemma io_Copy_file_frame (src : Reader) (fw fw' : FileWriter) (ok : bool) :
  io_Copy fw src = (fw', ok) ->
  fw_file fw' = fw_file fw /\ same_handles (fw_world fw) (fw_world fw').
Proof.
  unfold io_Copy. destruct (copyChunks fw (rd_chunks src)) as [fw1 ok1] eqn:C.
  intros [= <- <-]. eapply copyChunks_file_frame, C.
Qed.

Lemma release_head (h : string) (l : list string) : release h (h :: l) = l.
Proof. cbn. rewrite String.eqb_refl. reflexivity. Qed.

(** * Sync *)

Section SyncFacts.

Context {L : Lib}.

(** The stages after the fetch: the episodes in memory are whatever
    [parseEpisodes] returned, and the error tells the stage that failed. *)
Lemma Sync_fetched_spec (p : Podcast) (resp : Response) (w : World) :
  forall err p' w',
  Sync_fetched p resp w = (err, p', w') ->
  p' = set_Episodes p (fst (parseEpisodes (Body resp))) /\
  sent w' = sent w /\
  open_bodies w' = release (Request_URL (Response_Request resp)) (open_bodies w) /\
  open_files w' = open_files w /\
  match snd (parseEpisodes (Body resp)) with
  | Some _ => err = Some ErrParserIssue
  | None => err = None \/ err = Some ErrFilesystemError \/ err = Some ErrEncodeError
  end.
Proof.
  intros err p' w'. unfold Sync_fetched.
  destruct (parseEpisodes (Body resp)) as [episodes perr]. cbn [fst snd].
  destruct perr as [e |].
  { intros [= <- <- <-]. repeat split. }
  unfold os_MkdirAll.
  destruct (mkdir_ok w (Path (set_Episodes p episodes))); cbn [negb].
  2: { intros [= <- <- <-]. repeat split. right. left. reflexivity. }
  unfold os_Create.
  destruct (create_ok w _).
  2: { intros [= <- <- <-]. repeat split. right. left. reflexivity. }
  set (path := filepath_Join _ _).
  destruct (toGOB64 _) as [blob [e |]].
  1: intros [= <- <- <-]; cbn -[release]; rewrite release_head; repeat split; right; right; reflexivity.
  destruct (io_Copy _ blob) as [fw ok] eqn:C.
  apply io_Copy_file_frame in C as [_ (Hs & Hb & Hf)]. cbn in Hs, Hb, Hf.
  destruct ok; intros [= <- <- <-]; cbn -[release]; rewrite Hs, Hb, Hf; cbn -[release];
    rewrite release_head; repeat split; auto.
Qed.

Lemma client_Do_sent (req : Request) (w : World) :
  sent (snd (client_Do req w)) = sent w ++ [req].
Proof. unfold client_Do. destruct (net w req) as [[status body] |]; reflexivity. Qed.

Lemma client_Do_response (req : Request) (w w1 : World) (resp : Response) :
  client_Do req w = (Some resp, w1) ->
  Response_Request resp = req /\ net w req = Some (StatusCode resp, Body resp) /\
  open_bodies w1 = Request_URL req :: open_bodies w.
Proof.
  unfold client_Do. destruct (net w req) as [[status body] |]; intros [= <- <-].
  repeat split.
Qed.

Lemma client_Do_error (req : Request) (w w1 : World) :
  client_Do req w = (None, w1) -> net w req = None /\ open_bodies w1 = open_bodies w.
Proof.
  unfold client_Do. destruct (net w req) as [[status body] |]; intros [= <-].
  repeat split.
Qed.

(** [Sync] after a response, as a function of the status. *)
Lemma Sync_on_response (p : Podcast) (w w1 : World) (req : Request) (resp : Response) :
  Sync_request p = Some req -> client_Do req w = (Some resp, w1) ->
  Sync p w =
    match fetchOutcome (StatusCode resp) with
    | None => Sync_fetched p resp w1
    | Some e => (Some e, p, w1)
    end.
Proof.
  intros Hreq Hdo. unfold Sync. rewrite Hreq, Hdo.
  unfold fetchOutcome, StatusOK, StatusForbidden, StatusUnauthorized, StatusNotFound,
    StatusInternalServerError.
  repeat match goal with
         | |- context [Z.eqb ?a ?b] => destruct (Z.eqb_spec a b)
         end;
    repeat case_decide; cbn [orb]; try reflexivity; exfalso; lia.
Qed.

(** C3. The status of the feed fetch decides the outcome as the table of
    the specification says: 200 goes on to the body, 401 and 403 are
    access denied, 404 is feed not found, 500 and every other status is
    request failed; a transport error is request failed too. *)
Theorem Sync_status_classification (p : Podcast) (w : World) (req : Request) :
  Sync_request p = Some req ->
  match client_Do req w with
  | (None, w1) => Sync p w = (Some ErrRequestFailed, p, w1)
  | (Some resp, w1) =>
    let status := StatusCode resp in
    (status = 200%Z -> Sync p w = Sync_fetched p resp w1) /\
    (status = 401%Z \/ status = 403%Z -> Sync p w = (Some ErrAccessDenied, p, w1)) /\
    (status = 404%Z -> Sync p w = (Some ErrFeedNotFound, p, w1)) /\
    (status = 500%Z -> Sync p w = (Some ErrRequestFailed, p, w1)) /\
    (status <> 200%Z -> status <> 401%Z -> status <> 403%Z -> status <> 404%Z ->
     Sync p w = (Some ErrRequestFailed, p, w1)) /\
    (status <> 200%Z -> Sync p w = (fetchOutcome status, p, w1) /\ fetchOutcome status <> None)
  end.
Proof.
  intros Hreq. destruct (client_Do req w) as [[resp |] w1] eqn:Hdo.
  - rewrite (Sync_on_response p w w1 req resp Hreq Hdo).
    cbv zeta. unfold fetchOutcome.
    repeat split; intros; repeat case_decide; try reflexivity; try discriminate; lia.
  - unfold Sync. rewrite Hreq, Hdo. reflexivity.
Qed.

Lemma parseEpisodes_cases (content : Reader) :
  (rss_Parse content = None /\ parseEpisodes content = ([], Some ErrCouldNotParseContent)) \/
  (exists feed, rss_Parse content = Some feed /\ snd (parseEpisodes content) = None).
Proof.
  unfold parseEpisodes. destruct (rss_Parse content) as [feed |].
  - right. exists feed. split; reflexivity.
  - left. split; reflexivity.
Qed.

(** C1, as amended. An error from before the feed body is read (the
    request cannot be built, the transport fails, the status is not 200)
    leaves [Episodes] as it was.  From then on [Episodes] is what the
    extraction returned: the empty sequence when the feed does not parse,
    and the extracted sequence when it does, also when persisting it
    fails. *)
Theorem Sync_Episodes_by_stage (p : Podcast) (w : World)
    (err : option error) (p' : Podcast) (w' : World) :
  Sync p w = (err, p', w') ->
  (err = Some ErrCouldNotSync \/ err = Some ErrRequestFailed \/
   err = Some ErrAccessDenied \/ err = Some ErrFeedNotFound ->
   Episodes p' = Episodes p) /\
  (err = Some ErrParserIssue ->
   Episodes p' = [] /\
   exists req resp w1, Sync_request p = Some req /\ client_Do req w = (Some resp, w1) /\
     StatusCode resp = 200%Z /\ rss_Parse (Body resp) = None) /\
  (err = None \/ err = Some ErrFilesystemError \/ err = Some ErrEncodeError ->
   exists req resp w1, Sync_request p = Some req /\ client_Do req w = (Some resp, w1) /\
     StatusCode resp = 200%Z /\ parseEpisodes (Body resp) = (Episodes p', None)) /\
  (Sync_request p = None -> err = Some ErrCouldNotSync) /\
  (forall req, Sync_request p = Some req -> net w req = None -> err = Some ErrRequestFailed).
Proof.
  intros HS.
  destruct (Sync_request p) as [req |] eqn:Hreq.
  2: { unfold Sync in HS. rewrite Hreq in HS. injection HS as <- <- <-.
       repeat split; try discriminate; try reflexivity;
         intros H; decompose [or] H; discriminate. }
  destruct (client_Do req w) as [[resp |] w1] eqn:Hdo.
  2: { unfold Sync in HS. rewrite Hreq, Hdo in HS. injection HS as <- <- <-.
       repeat split; try discriminate; try reflexivity;
         intros H; decompose [or] H; discriminate. }
  assert (Hnet : forall r, Some req = Some r -> net w r = None -> err = Some ErrRequestFailed).
  { intros r [= <-] Hn. apply client_Do_response in Hdo as (_ & Hn' & _). congruence. }
  rewrite (Sync_on_response p w w1 req resp Hreq Hdo) in HS.
  unfold fetchOutcome in HS.
  destruct (decide (StatusCode resp = 200%Z)) as [H200 | H200].
  - apply Sync_fetched_spec in HS as (-> & _ & _ & _ & Herr). cbn [Episodes set_Episodes].
    destruct (parseEpisodes_cases (Body resp)) as [[Hp E] | [feed [Hp E]]].
    + rewrite E in Herr |- *. cbn [fst snd] in *. subst err.
      split; [intros H; decompose [or] H; discriminate |].
      split; [intros _; split; [reflexivity | eauto 10] |].
      split; [intros H; decompose [or] H; discriminate |].
      split; [discriminate | exact Hnet].
    + rewrite E in Herr.
      assert (E' : parseEpisodes (Body resp) = (fst (parseEpisodes (Body resp)), None)).
      { rewrite <- E. apply surjective_pairing. }
      split; [intros H; decompose [or] H; decompose [or] Herr; congruence |].
      split; [intros ->; decompose [or] Herr; discriminate |].
      split; [intros _; eauto 10 |].
      split; [discriminate | exact Hnet].
  - assert (Hp : p' = p /\ (err = Some ErrAccessDenied \/ err = Some ErrFeedNotFound \/
                            err = Some ErrRequestFailed)).
    { repeat case_decide; injection HS as <- <- <-; auto. }
    destruct Hp as [-> Herr].
    split; [reflexivity |].
    split; [intros ->; decompose [or] Herr; discriminate |].
    split; [intros H; decompose [or] H; decompose [or] Herr; congruence |].
    split; [discriminate | exact Hnet].
Qed.

Lemma Sync_sent (p : Podcast) (w : World) (req : Request) :
  Sync_request p = Some req -> sent (snd (Sync p w)) = sent w ++ [req].
Proof.
  intros Hreq. pose proof (client_Do_sent req w) as Hsent.
  destruct (client_Do req w) as [[resp |] w1] eqn:Hdo; cbn [snd] in Hsent.
  - rewrite (Sync_on_response p w w1 req resp Hreq Hdo).
    destruct (fetchOutcome (StatusCode resp)); [exact Hsent |].
    destruct (Sync_fetched p resp w1) as [[err p'] w'] eqn:F.
    apply Sync_fetched_spec in F as (_ & Hs & _). cbn [snd]. congruence.
  - unfold Sync. rewrite Hreq, Hdo. exact Hsent.
Qed.

(** C9, as amended. The feed fetch sends exactly one request, and that
    request carries a Basic Authentication header if and only if the user
    name is non-empty; the header then holds the user name and the
    password.  The password alone decides nothing. *)
Theorem Sync_auth_iff_username (p : Podcast) (w : World) (req : Request) :
  Sync_request p = Some req ->
  sent (snd (Sync p w)) = sent w ++ [req] /\
  (BasicAuth req <> None <-> Username p <> "") /\
  (Username p <> "" -> BasicAuth req = Some (Username p, Password p)).
Proof.
  intros Hreq. split; [apply Sync_sent, Hreq |].
  unfold Sync_request, http_NewRequest in Hreq.
  destruct (url_Parse_ok (Feed p)); [| discriminate Hreq].
  injection Hreq as <-.
  destruct (String.eqb_spec (Username p) "") as [E | E]; cbn.
  - split; [split; congruence | congruence].
  - split; [split; [intros _; exact E | discriminate] | reflexivity].
Qed.

(** Where the body of the response ends up: closed after a 200, left open
    after any other status. *)
Lemma Sync_body_by_status (p : Podcast) (w w1 : World) (req : Request) (resp : Response) :
  Sync_request p = Some req -> client_Do req w = (Some resp, w1) ->
  open_bodies (snd (Sync p w)) =
    if decide (StatusCode resp = 200%Z) then open_bodies w
    else Request_URL req :: open_bodies w.
Proof.
  intros Hreq Hdo. rewrite (Sync_on_response p w w1 req resp Hreq Hdo).
  apply client_Do_response in Hdo as (Hr & _ & Hb).
  unfold fetchOutcome. destruct (decide (StatusCode resp = 200%Z)).
  - destruct (Sync_fetched p resp w1) as [[err p'] w'] eqn:F.
    apply Sync_fetched_spec in F as (_ & _ & Ho & _). cbn [snd].
    rewrite Ho, Hr, Hb. apply release_head.
  - repeat case_decide; exact Hb.
Qed.

End SyncFacts.

(** * Load *)

Section LoadFacts.

Context {L : Lib}.

(** C6. Without a cache file [Load] fails with the cache-unavailable
    error and changes nothing: the podcast, its episodes and the world are
    as before. *)
Theorem Load_without_cache_file (p : Podcast) (w : World) :
  files w !! filepath_Join (Path p) ".feed" = None ->
  Load p w = (Some ErrCouldNotReadFromCache, p, w) /\
  Episodes (snd (fst (Load p w))) = Episodes p.
Proof.
  intros Hnone. unfold Load, os_Open. rewrite Hnone. split; reflexivity.
Qed.

Lemma fromGOB64_failure (content : Reader) :
  snd (fromGOB64 content) <> None -> fromGOB64 content = ([], Some ErrLibrary).
Proof.
  unfold fromGOB64. destruct (gob_Decode (base64.NewDecoder content)); cbn; congruence.
Qed.

(** C10. When the cache file exists and opens but does not decode, [Load]
    fails with the cache-unavailable error and the episodes in memory are
    the empty sequence, whatever they were: the result of [fromGOB64] is
    stored before the error is looked at. *)
Theorem Load_decode_failure (p : Podcast) (w : World) (content : list byte) :
  let path := filepath_Join (Path p) ".feed" in
  files w !! path = Some content ->
  open_ok w path = true ->
  snd (fromGOB64 (bufferReader content)) <> None ->
  fst (fst (Load p w)) = Some ErrCouldNotReadFromCache /\
  snd (fst (Load p w)) = set_Episodes p [] /\
  Episodes (snd (fst (Load p w))) = [].
Proof.
  intros path Hfile Hopen Hdec. unfold Load, os_Open. fold path.
  rewrite Hfile, Hopen. unfold File_Reader. cbn [files set_fs_state].
  rewrite Hfile. cbn [default from_option id]. rewrite (fromGOB64_failure _ Hdec).
  repeat split.
Qed.

End LoadFacts.


(** * Strings *)

Lemma length_append (s1 s2 : string) :
  String.length (s1 ++ s2)%string = String.length s1 + String.length s2.
Proof. induction s1 as [| c s1 IH]; simpl; [reflexivity | f_equal; exact IH]. Qed.

Lemma length_substring_0 (n : nat) (s : string) :
  n <= String.length s -> String.length (substring 0 n s) = n.
Proof.
  revert s. induction n as [| n IH]; intros s Hn.
  - destruct s; reflexivity.
  - destruct s as [| c s]; cbn in Hn; [lia |].
    cbn. rewrite IH; [reflexivity | lia].
Qed.

(** * The listing *)

Section Listing.

Context {L : Lib}.

Lemma longestTitle_from (episodes : list (Episode Time)) (tl : nat) :
  fold_left
    (fun tl episode =>
       if (tl <? String.length (Title episode))%nat then String.length (Title episode) else tl)
    episodes tl = Nat.max tl (maxTitle episodes).
Proof.
  revert tl. induction episodes as [| e episodes IH]; intros tl.
  - cbn. lia.
  - cbn [fold_left]. rewrite IH. unfold maxTitle. cbn [map list_max fold_right].
    fold (list_max (map (fun e => String.length (Title e)) episodes)).
    destruct (Nat.ltb_spec tl (String.length (Title e))); lia.
Qed.

Lemma longestTitle_max (episodes : list (Episode Time)) :
  longestTitle episodes = maxTitle episodes.
Proof. unfold longestTitle. rewrite longestTitle_from. lia. Qed.

Lemma maxTitle_ge (episodes : list (Episode Time)) (e : Episode Time) :
  In e episodes -> String.length (Title e) <= maxTitle episodes.
Proof.
  intros Hin. unfold maxTitle.
  assert (H : list_max (map (fun e => String.length (Title e)) episodes)
              <= list_max (map (fun e => String.length (Title e)) episodes)) by lia.
  rewrite list_max_le, Forall_forall in H. apply H.
  apply list_elem_of_In.
  apply (in_map (fun e => String.length (Title e))), Hin.
Qed.

(** C5, as amended. A title longer than the cap of 60 is shown as its
    first 56 bytes followed by the three-byte ellipsis, 59 bytes in all,
    one less than the cap, and the title column is then as wide as the
    cap; when no title is longer than the cap, the column is as wide as
    the longest title and every title is shown in full. *)
Theorem String_title_rendering (episodes : list (Episode Time)) :
  (forall e, In e episodes -> titleLength < String.length (Title e) ->
     shownTitle e = (substring 0 56 (Title e) ++ "...")%string /\
     String.length (shownTitle e) = titleLength - 1 /\
     titleColumn episodes = titleLength) /\
  (Forall (fun e => String.length (Title e) <= titleLength) episodes ->
     titleColumn episodes = maxTitle episodes /\
     forall e, In e episodes -> shownTitle e = Title e).
Proof.
  unfold titleColumn, shownTitle. rewrite longestTitle_max. split.
  - intros e Hin Hlong. pose proof (maxTitle_ge episodes e Hin) as Hmax.
    destruct (Nat.ltb_spec titleLength (String.length (Title e))); [| lia].
    destruct (Nat.ltb_spec titleLength (maxTitle episodes)); [| lia].
    repeat split. rewrite length_append, length_substring_0; unfold titleLength in *; cbn; lia.
  - intros Hall.
    assert (Hmax : maxTitle episodes <= titleLength).
    { unfold maxTitle. rewrite list_max_le, Forall_map. exact Hall. }
    destruct (Nat.ltb_spec titleLength (maxTitle episodes)); [lia |].
    split; [reflexivity |]. intros e Hin.
    rewrite Forall_forall in Hall. specialize (Hall e (proj2 (list_elem_of_In _ _) Hin)).
    destruct (Nat.ltb_spec titleLength (String.length (Title e))); [lia | reflexivity].
Qed.

End Listing.

(** * Splitting a URL *)

Lemma noSlash_empty : noSlash "".
Proof. intros [| c pre] post; discriminate. Qed.

Lemma noSlash_cons (c : ascii) (s : string) :
  c <> "/"%char -> noSlash s -> noSlash (String c s).
Proof.
  intros Hc Hs [| d pre] post; cbn; intros [= E1 E2].
  - apply Hc, E1.
  - apply (Hs pre post), E2.
Qed.

Lemma append_cons (c : ascii) (s1 s2 : string) :
  (String c s1 ++ s2)%string = String c (s1 ++ s2).
Proof. reflexivity. Qed.

Lemma append_assoc (s1 s2 s3 : string) :
  ((s1 ++ s2) ++ s3 = s1 ++ (s2 ++ s3))%string.
Proof.
  induction s1 as [| c s1 IH]; [reflexivity |].
  rewrite !append_cons, IH. reflexivity.
Qed.

Lemma append_empty_r (s : string) : (s ++ "")%string = s.
Proof.
  induction s as [| c s IH]; [reflexivity |].
  rewrite append_cons, IH. reflexivity.
Qed.

Lemma Split_from_nonempty (sep s : string) (skip : nat) (cur : string) :
  Split_from sep s skip cur <> [].
Proof.
  revert skip cur. induction s as [| c s IH]; intros skip cur; cbn [Split_from].
  - discriminate.
  - destruct skip; [| apply IH].
    destruct (String.prefix sep (String c s)); [discriminate | apply IH].
Qed.

Lemma last_cons_nonempty {A : Type} (x d : A) (l : list A) :
  l <> [] -> List.last (x :: l) d = List.last l d.
Proof. destruct l; [congruence | reflexivity]. Qed.

Lemma prefix_slash_eq (s : string) : String.prefix "/" (String "/" s) = true.
Proof. destruct s; reflexivity. Qed.

Lemma prefix_slash_ne (c : ascii) (s : string) :
  c <> "/"%char -> String.prefix "/" (String c s) = false.
Proof.
  intros Hc. cbn [String.prefix].
  destruct (Ascii.ascii_dec "/" c) as [E | _]; [congruence | reflexivity].
Qed.

(** The last token of a split at slashes: the token being read followed by
    the rest when no slash is left, and what follows the last slash
    otherwise. *)
Lemma Split_from_last (s cur : string) :
  (List.last (Split_from "/" s 0 cur) "" = (cur ++ s)%string /\ noSlash s) \/
  (noSlash (List.last (Split_from "/" s 0 cur) "") /\
   exists pre, s = (pre ++ "/" ++ List.last (Split_from "/" s 0 cur) "")%string).
Proof.
  revert cur. induction s as [| c s IH]; intros cur; cbn [Split_from].
  - left. cbn [List.last]. rewrite append_empty_r. split; [reflexivity | apply noSlash_empty].
  - destruct (Ascii.ascii_dec c "/") as [-> | Hc].
    + rewrite prefix_slash_eq. cbn [String.length Nat.sub].
      rewrite last_cons_nonempty by apply Split_from_nonempty.
      right. destruct (IH "") as [[Hn Hs] | [Hn [pre Hpre]]].
      * rewrite Hn. split; [exact Hs | exists ""; reflexivity].
      * split; [exact Hn |]. exists (String "/" pre).
        rewrite append_cons. f_equal. exact Hpre.
    + rewrite prefix_slash_ne by exact Hc.
      destruct (IH (cur ++ String c "")%string) as [[Hn Hs] | [Hn [pre Hpre]]].
      * left. rewrite Hn, append_assoc. split; [reflexivity |].
        apply noSlash_cons; assumption.
      * right. split; [exact Hn |]. exists (String c pre).
        rewrite append_cons. f_equal. exact Hpre.
Qed.

Lemma strings_Split_finalSegment (url : string) :
  finalSegment url (List.last (strings_Split url "/") "").
Proof.
  unfold strings_Split, finalSegment.
  destruct (Split_from_last url "") as [[Hn Hs] | [Hn [pre Hpre]]].
  - change ("" ++ url)%string with url in Hn. rewrite Hn.
    split; [exact Hs | left; reflexivity].
  - split; [exact Hn | right; exists pre; exact Hpre].
Qed.

(** * Download *)

Section DownloadFacts.

Context {L : Lib}.

Lemma http_Get_frame (url : string) (w w1 : World) (res : Response) :
  http_Get url w = (Some res, w1) ->
  files w1 = files w /\ open_files w1 = open_files w /\
  create_ok w1 = create_ok w /\ write_ok w1 = write_ok w /\
  open_bodies w1 = Request_URL (Response_Request res) :: open_bodies w.
Proof.
  unfold http_Get. destruct (http_NewRequest "GET" url) as [req |]; [| discriminate].
  unfold client_Do. destruct (net w req) as [[status body] |]; intros [= <- <-].
  repeat split.
Qed.

(** Copying to a file alone: the file grows by what was written; when
    writes to it succeed, that is everything. *)
Lemma copyChunks_file (chunks : list (list byte)) (f : string) (w : World) (c : list byte)
    (fw : FileWriter) (ok : bool) :
  files w !! f = Some c ->
  copyChunks {| fw_file := f; fw_world := w |} chunks = (fw, ok) ->
  exists written,
    files (fw_world fw) !! f = Some (c ++ written) /\
    (write_ok w f = true -> ok = true /\ written = concat chunks).
Proof.
  revert w c. induction chunks as [| p rest IH]; intros w c Hc; cbn [copyChunks].
  - intros [= <- <-]. exists []. rewrite app_nil_r. cbn. auto.
  - unfold Write at 1, File_Writer at 1. cbn [fw_file fw_world].
    destruct (write_ok w f) eqn:Hw.
    + intros H. eapply IH in H as (written & Hfile & Hall).
      2: { cbn [files set_fs_state]. rewrite Hc. cbn [default from_option id].
           apply lookup_insert_eq. }
      exists (p ++ written). rewrite app_assoc. split; [exact Hfile |].
      intros _. destruct (Hall Hw) as [-> ->]. cbn [concat]. auto.
    + intros [= <- <-]. exists []. rewrite app_nil_r. cbn. split; [exact Hc | discriminate].
Qed.

(** Copying to a file and an observer: the observer is handed exactly the
    bytes the file receives, also when a write fails. *)
Lemma copyChunks_tee (chunks : list (list byte)) (f : string) (w : World) (c : list byte)
    (o : Observer) (mw : FileWriter * Observer) (ok : bool) :
  files w !! f = Some c ->
  copyChunks ({| fw_file := f; fw_world := w |}, o) chunks = (mw, ok) ->
  exists written,
    files (fw_world (fst mw)) !! f = Some (c ++ written) /\
    obs_seen (snd mw) = obs_seen o ++ written /\
    (write_ok w f = true -> (forall seen chunk, obs_fails o seen chunk = false) ->
     ok = true /\ written = concat chunks).
Proof.
  revert w c o. induction chunks as [| p rest IH]; intros w c o Hc; cbn [copyChunks].
  - intros [= <- <-]. exists []. rewrite !app_nil_r. cbn. auto.
  - unfold Write at 1, MultiWriter at 1. cbn [fst snd].
    unfold Write at 1, File_Writer at 1. cbn [fw_file fw_world].
    destruct (write_ok w f) eqn:Hw.
    + unfold Write at 1, Observer_Writer at 1.
      destruct (obs_fails o (obs_seen o) p) eqn:Hf; cbn [negb].
      * intros [= <- <-]. exists p. cbn [fst snd fw_world files set_fs_state obs_seen].
        rewrite Hc. cbn [default from_option id].
        split; [apply lookup_insert_eq |]. split; [reflexivity |].
        intros _ Hnever. rewrite Hnever in Hf. discriminate Hf.
      * intros H. eapply IH in H as (written & Hfile & Hseen & Hall).
        2: { cbn [files set_fs_state]. rewrite Hc. cbn [default from_option id].
             apply lookup_insert_eq. }
        cbn [obs_seen obs_fails] in Hseen, Hall.
        exists (p ++ written). rewrite !app_assoc.
        split; [exact Hfile |]. split; [exact Hseen |].
        intros _ Hnever. destruct (Hall Hw Hnever) as [-> ->]. cbn [concat]. auto.
    + intros [= <- <-]. exists []. rewrite !app_nil_r. cbn.
      split; [exact Hc |]. split; [reflexivity | discriminate].
Qed.

(** C8, as amended. When the fetch of the media URL returns status 200
    and the destination file can be created, [Download] creates the file
    named after the final path segment of the URL in the destination
    directory, and a progress observer, when there is one, is handed
    exactly the bytes written to that file.  When moreover the body is read
    to its end and no write fails, [Download] succeeds and the file holds
    the response body exactly. *)
Theorem Download_creates_file (e : Episode Time) (path : string) (writer : option Observer)
    (w w1 : World) (res : Response) :
  http_Get (URL e) w = (Some res, w1) ->
  StatusCode res = 200%Z ->
  let filename := List.last (strings_Split (URL e) "/") "" in
  let fpath := filepath_Join path filename in
  create_ok w fpath = true ->
  finalSegment (URL e) filename /\
  exists written : list byte,
    files (snd (Download e path writer w)) !! fpath = Some written /\
    (forall o, writer = Some o ->
       exists o', snd (fst (Download e path writer w)) = Some o' /\
                  obs_seen o' = obs_seen o ++ written) /\
    (rd_err (Body res) = false ->
     write_ok w fpath = true ->
     (forall o, writer = Some o -> forall seen chunk, obs_fails o seen chunk = false) ->
     fst (fst (Download e path writer w)) = None /\ written = rd_data (Body res)).
Proof.
  intros Hget Hstatus filename fpath Hcreate.
  split; [apply strings_Split_finalSegment |].
  apply http_Get_frame in Hget as Hframe. destruct Hframe as (Hfiles & _ & Hc1 & Hw1 & _).
  unfold Download. rewrite Hget, Hstatus. cbn [Z.eqb Pos.eqb negb].
  fold filename. fold fpath. unfold os_Create. rewrite Hc1, Hcreate.
  set (w2 := set_fs_state w1 _ _).
  assert (Hnew : files w2 !! fpath = Some []) by apply lookup_insert_eq.
  assert (Hw2 : write_ok w2 fpath = write_ok w fpath) by (cbn; rewrite Hw1; reflexivity).
  destruct writer as [o |].
  - unfold io_Copy.
    destruct (copyChunks _ (rd_chunks (Body res))) as [mw ok] eqn:C.
    destruct (copyChunks_tee _ _ _ _ _ _ _ Hnew C) as (written & Hfile & Hseen & Hall).
    exists written. cbn [fst snd files File_Close Body_Close set_fs_state set_net_state].
    split; [exact Hfile |]. split.
    + intros o0 [= <-]. exists (snd mw). split; [reflexivity | exact Hseen].
    + intros Herr Hwrite Hnever. rewrite <- Hw2 in Hwrite.
      destruct (Hall Hwrite (Hnever o eq_refl)) as [-> ->].
      rewrite Herr. split; reflexivity.
  - unfold io_Copy.
    destruct (copyChunks _ (rd_chunks (Body res))) as [fw ok] eqn:C.
    destruct (copyChunks_file _ _ _ _ _ _ Hnew C) as (written & Hfile & Hall).
    exists written. cbn [fst snd files File_Close Body_Close set_fs_state set_net_state].
    split; [exact Hfile |]. split.
    + intros o0 [=].
    + intros Herr Hwrite _. rewrite <- Hw2 in Hwrite.
      destruct (Hall Hwrite) as [-> ->].
      rewrite Herr. split; reflexivity.
Qed.

End DownloadFacts.

(** * The package at work on the small instance *)

Lemma fromGOB64_toGOB64_witness :
  let xs := [Demo.episode0; Demo.episode0] in
  exists blob : Reader,
    @toGOB64 Demo.lib xs = (blob, None) /\ @fromGOB64 Demo.lib blob = (xs, None).
Proof.
  intros xs.
  refine (@fromGOB64_toGOB64 Demo.lib xs
            (default [] (Demo.encodeEpisodes xs)) _ _); vm_compute; reflexivity.
Defined.

Example Encode_foobar :
  base64.Encode (list_ascii_of_string "foobar") = list_ascii_of_string "Zm9vYmFy".
Proof. reflexivity. Qed.

Example Encode_fooba :
  base64.Encode (list_ascii_of_string "fooba") = list_ascii_of_string "Zm9vYmE=".
Proof. reflexivity. Qed.

Example Encode_foob :
  base64.Encode (list_ascii_of_string "foob") = list_ascii_of_string "Zm9vYg==".
Proof. reflexivity. Qed.

Example Decode_corrupt :
  base64.Decode (list_ascii_of_string "Zm9v!mE=") = (list_ascii_of_string "foo", false).
Proof. reflexivity. Qed.

Example Split_slashes : strings_Split "a/b//c/" "/" = ["a"; "b"; ""; "c"; ""].
Proof. reflexivity. Qed.

Example Split_none : strings_Split "abc" "/" = ["abc"].
Proof. reflexivity. Qed.

Example Sync_demo :
  let p := Demo.podcast "http://feed.example/rss" "/pods/demo" in
  let r := @Sync Demo.lib p Demo.world in
  fst (fst r) = None /\
  map Title (Episodes (snd (fst r))) = ["First"; "Third"] /\
  open_bodies (snd r) = [] /\ open_files (snd r) = [] /\
  files (snd r) !! "/pods/demo/.feed" =
    Some (list_ascii_of_string
      ("AgVGaXJzdAMxMDAeaHR0cDovL21lZGlhLmV4YW1wbGUvYS9vbmUubXAzAjMw"
       ++ "BVRoaXJkAzMwMCBodHRwOi8vbWVkaWEuZXhhbXBsZS9hL3RocmVlLm1wMwIzMg==")%string).
Proof. vm_compute. repeat split. Qed.

Example Sync_then_Load_demo :
  let p := Demo.podcast "http://feed.example/rss" "/pods/demo" in
  let r := @Sync Demo.lib p Demo.world in
  @Load Demo.lib p (snd r) = (None, snd (fst r), snd r).
Proof. vm_compute. reflexivity. Qed.

Example String_demo :
  @String_ Demo.lib (@mkPodcast Demo.lib 1 "Demo" "" "" "" "" [Demo.longEpisode; Demo.episode0])
  = ("All episodes of Demo (id: 1)" ++ newline
     ++ "1    The sixty-one byte title of an episode that is rather wo...                     9"
     ++ newline
     ++ "2    Pilot                                                                           7"
     ++ newline)%string.
Proof. vm_compute. reflexivity. Qed.

Lemma parseEpisodes_filter_map_witness :
  @rss_Parse Demo.lib Demo.feedBody = Some Demo.feedDocument /\
  length (fst (@parseEpisodes Demo.lib Demo.feedBody)) = 3 - 1.
Proof.
  split; [reflexivity |].
  exact (proj1 (proj2 (@parseEpisodes_filter_map Demo.lib Demo.feedBody Demo.feedDocument
                         eq_refl))).
Defined.

Lemma Sync_status_classification_witness :
  let p := Demo.podcast "http://feed.example/none" "/pods/demo" in
  let req := {| Method := "GET"; Request_URL := "http://feed.example/none"; BasicAuth := None |} in
  @Sync_request Demo.lib p = Some req /\
  @Sync Demo.lib p Demo.world = (Some ErrFeedNotFound, p, snd (client_Do req Demo.world)).
Proof.
  intros p req. split; [reflexivity |].
  pose proof (@Sync_status_classification Demo.lib p Demo.world req eq_refl) as H.
  change (client_Do req Demo.world) with
    (Some {| StatusCode := 404; Body := bufferReader []; Response_Request := req |},
     snd (client_Do req Demo.world)) in H.
  cbv iota zeta beta in H. destruct H as (_ & _ & H404 & _).
  apply H404. reflexivity.
Defined.

Lemma Sync_parse_failure_counterexample :
  let p := Demo.podcast "http://feed.example/html" "/pods/demo" in
  let r := @Sync Demo.lib p Demo.world in
  fst (fst r) = Some ErrParserIssue /\
  Episodes p = [Demo.episode0] /\
  Episodes (snd (fst r)) = [] /\
  Episodes (snd (fst r)) <> Episodes p.
Proof. vm_compute. repeat split; discriminate. Qed.

Lemma Sync_Episodes_by_stage_witness :
  let p := Demo.podcast "http://feed.example/rss" "/readonly/demo" in
  let r := @Sync Demo.lib p Demo.world in
  fst (fst r) = Some ErrFilesystemError /\
  @parseEpisodes Demo.lib Demo.feedBody = (Episodes (snd (fst r)), None).
Proof.
  intros p r. split; [reflexivity |].
  assert (E : r = (fst (fst r), snd (fst r), snd r)) by reflexivity.
  destruct (@Sync_Episodes_by_stage Demo.lib p Demo.world _ _ _ E) as (_ & _ & H & _).
  destruct H as (req & resp & w1 & Hreq & Hdo & _ & Hparse).
  { right. left. reflexivity. }
  injection Hreq as <-. injection Hdo as <- _. exact Hparse.
Defined.

(** C7. After a 404 (and likewise after any status other than 200) [Sync]
    returns from the status switch, before the deferred close of the
    response body is registered: the body opened by the fetch is still
    open when [Sync] has returned. *)
Theorem Sync_not_found_leaves_body_open :
  let p := Demo.podcast "http://feed.example/none" "/pods/demo" in
  let r := @Sync Demo.lib p Demo.world in
  fst (fst r) = Some ErrFeedNotFound /\
  open_bodies Demo.world = [] /\
  open_bodies (snd r) = ["http://feed.example/none"].
Proof. repeat split. Qed.

Lemma Sync_password_only_counterexample :
  let p := Demo.podcastAs "" "secret" in
  ~ (Username p = "" /\ Password p = "") /\
  sent (snd (@Sync Demo.lib p Demo.world)) =
    [{| Method := "GET"; Request_URL := "http://feed.example/private"; BasicAuth := None |}].
Proof.
  split; [| reflexivity]. intros [_ H]. discriminate H.
Qed.

Lemma Sync_auth_iff_username_witness :
  let p := Demo.podcastAs "alice" "secret" in
  let req := {| Method := "GET"; Request_URL := "http://feed.example/private";
                BasicAuth := Some ("alice", "secret") |} in
  @Sync_request Demo.lib p = Some req /\
  sent (snd (@Sync Demo.lib p Demo.world)) = [req].
Proof.
  intros p req. split; [reflexivity |].
  exact (proj1 (@Sync_auth_iff_username Demo.lib p Demo.world req eq_refl)).
Defined.

Lemma Load_without_cache_file_witness :
  let p := Demo.podcast "http://feed.example/rss" "/pods/demo" in
  files Demo.world !! "/pods/demo/.feed" = None /\
  @Load Demo.lib p Demo.world = (Some ErrCouldNotReadFromCache, p, Demo.world).
Proof.
  intros p. split; [reflexivity |].
  exact (proj1 (@Load_without_cache_file Demo.lib p Demo.world eq_refl)).
Defined.

Lemma Load_decode_failure_witness :
  let p := Demo.podcast "http://feed.example/rss" "/pods/demo" in
  let w := Demo.worldWithCache "not a cache" in
  Episodes p = [Demo.episode0] /\
  fst (fst (@Load Demo.lib p w)) = Some ErrCouldNotReadFromCache /\
  Episodes (snd (fst (@Load Demo.lib p w))) = [].
Proof.
  intros p w. split; [reflexivity |].
  destruct (@Load_decode_failure Demo.lib p w (list_ascii_of_string "not a cache"))
    as (Herr & _ & Heps).
  - reflexivity.
  - reflexivity.
  - vm_compute. discriminate.
  - split; assumption.
Defined.

Lemma String_truncation_counterexample :
  let e := Demo.longEpisode in
  titleLength < String.length (Title e) /\
  String.length (@shownTitle Demo.lib e) = 59 /\
  String.length (@shownTitle Demo.lib e) <> titleLength /\
  @padRight Demo.lib (@titleColumn Demo.lib [e]) (@shownTitle Demo.lib e)
  = (@shownTitle Demo.lib e ++ " ")%string.
Proof. vm_compute. repeat split; try lia; discriminate. Qed.

Lemma String_title_rendering_witness :
  let e := Demo.longEpisode in
  String.length (@shownTitle Demo.lib e) = titleLength - 1 /\
  @titleColumn Demo.lib [e; Demo.episode0] = titleLength /\
  @titleColumn Demo.lib [Demo.episode0] = 5.
Proof.
  intros e.
  assert (Hin : In e [e; Demo.episode0]) by (left; reflexivity).
  assert (Hlong : titleLength < String.length (Title e)) by (vm_compute; lia).
  assert (Hall : Forall (fun e => String.length (Title e) <= titleLength) [Demo.episode0])
    by (repeat constructor; vm_compute; lia).
  pose proof (proj1 (@String_title_rendering Demo.lib [e; Demo.episode0]) e Hin Hlong)
    as (_ & Hlen & Hcol).
  pose proof (proj2 (@String_title_rendering Demo.lib [Demo.episode0]) Hall) as [Hmax _].
  split; [exact Hlen | split; [exact Hcol | exact Hmax]].
Defined.

Lemma Download_uncreatable_counterexample :
  let r := @Download Demo.lib Demo.episode0 "/readonly" None Demo.world in
  StatusCode <$> fst (@http_Get Demo.lib (URL Demo.episode0) Demo.world) = Some 200%Z /\
  fst (fst r) = Some ErrCouldNotDownload /\
  files (snd r) = ∅.
Proof. repeat split. Qed.

Lemma Download_creates_file_witness :
  let r := @Download Demo.lib Demo.episode0 "/dl" (Some Demo.recorder) Demo.world in
  fst (fst r) = None /\
  files (snd r) !! "/dl/one.mp3" = Some (list_ascii_of_string "ID3audio") /\
  obs_seen <$> snd (fst r) = Some (list_ascii_of_string "ID3audio").
Proof.
  intros r.
  destruct (@Download_creates_file Demo.lib Demo.episode0 "/dl" (Some Demo.recorder)
              Demo.world (snd (@http_Get Demo.lib (URL Demo.episode0) Demo.world))
              {| StatusCode := 200; Body := Demo.mediaBody;
                 Response_Request :=
                   {| Method := "GET"; Request_URL := URL Demo.episode0; BasicAuth := None |} |}
              eq_refl eq_refl eq_refl)
    as (_ & written & Hfile & Hobs & Hok).
  destruct Hok as [Herr ->]; [reflexivity | reflexivity | intros o [= <-]; reflexivity |].
  destruct (Hobs Demo.recorder eq_refl) as (o' & Ho' & Hseen).
  fold r in Herr, Hfile, Ho'. split; [exact Herr | split; [exact Hfile |]].
  rewrite Ho'. cbn. rewrite Hseen. reflexivity.
Defined.

(** * More about Load *)

Lemma set_fs_state_same (w : World) : set_fs_state w (files w) (open_files w) = w.
Proof. destruct w; reflexivity. Qed.

Lemma set_net_state_same (w : World) : set_net_state w (sent w) (open_bodies w) = w.
Proof. destruct w; reflexivity. Qed.

Lemma open_then_close (f : string) (w : World) :
  File_Close f (set_fs_state w (files w) (f :: open_files w)) = w.
Proof.
  unfold File_Close. cbn -[release]. rewrite release_head.
  destruct w; reflexivity.
Qed.

Section LoadMore.

Context {L : Lib}.

(** X1. [Load] is read-only: whatever it returns, the world after the
    call is the world before it (no request sent, no file created, changed
    or left open), its error is nil or the cache-unavailable error, and of
    the podcast only [Episodes] can change. *)
Theorem Load_read_only (p : Podcast) (w : World) :
  snd (Load p w) = w /\
  (fst (fst (Load p w)) = None \/ fst (fst (Load p w)) = Some ErrCouldNotReadFromCache) /\
  snd (fst (Load p w)) = set_Episodes p (Episodes (snd (fst (Load p w)))).
Proof.
  unfold Load, os_Open.
  destruct (files w !! filepath_Join (Path p) ".feed") as [content |].
  2: { cbn. split; [reflexivity |]. split; [auto |]. destruct p; reflexivity. }
  destruct (open_ok w (filepath_Join (Path p) ".feed")).
  2: { cbn. split; [reflexivity |]. split; [auto |]. destruct p; reflexivity. }
  destruct (fromGOB64 _) as [episodes [e |]]; cbn -[File_Close];
    rewrite open_then_close; auto.
Qed.

Lemma Load_decodes (q : Podcast) (w : World) (content : list byte)
    (episodes : list (Episode Time)) :
  files w !! filepath_Join (Path q) ".feed" = Some content ->
  open_ok w (filepath_Join (Path q) ".feed") = true ->
  fromGOB64 (bufferReader content) = (episodes, None) ->
  Load q w = (None, set_Episodes q episodes, w).
Proof.
  intros Hfile Hopen Hdec. unfold Load, os_Open.
  rewrite Hfile, Hopen. unfold File_Reader. cbn [files set_fs_state].
  rewrite Hfile. cbn [default from_option id]. rewrite Hdec.
  rewrite open_then_close. reflexivity.
Qed.

(** X2. When the cache file opens and decodes, [Load] succeeds and
    [Episodes] becomes exactly the decoded sequence: what was in memory
    before plays no part, and nothing else changes. *)
Theorem Load_success (p : Podcast) (w : World) (content : list byte)
    (episodes : list (Episode Time)) :
  let path := filepath_Join (Path p) ".feed" in
  files w !! path = Some content ->
  open_ok w path = true ->
  fromGOB64 (bufferReader content) = (episodes, None) ->
  Load p w = (None, set_Episodes p episodes, w) /\
  forall prior, Load (set_Episodes p prior) w = (None, set_Episodes p episodes, w).
Proof.
  intros path Hfile Hopen Hdec.
  split; [apply (Load_decodes p w content episodes Hfile Hopen Hdec) |].
  intros prior.
  apply (Load_decodes (set_Episodes p prior) w content episodes Hfile Hopen Hdec).
Qed.

End LoadMore.

(** * More about Sync *)

Lemma same_behaviour_refl (w : World) : same_behaviour w w.
Proof. repeat split. Qed.

Lemma same_behaviour_trans (w1 w2 w3 : World) :
  same_behaviour w1 w2 -> same_behaviour w2 w3 -> same_behaviour w1 w3.
Proof. unfold same_behaviour. intuition congruence. Qed.

(** Copying to a file, in full: the file grows by what was written, which
    is everything when the copy succeeds; no other file changes. *)
Lemma copyChunks_file_full (chunks : list (list byte)) (f : string) (w : World)
    (c : list byte) (fw : FileWriter) (ok : bool) :
  files w !! f = Some c ->
  copyChunks {| fw_file := f; fw_world := w |} chunks = (fw, ok) ->
  same_behaviour w (fw_world fw) /\
  (forall g, g <> f -> files (fw_world fw) !! g = files w !! g) /\
  exists written,
    files (fw_world fw) !! f = Some (c ++ written) /\
    (ok = true -> written = concat chunks).
Proof.
  revert w c. induction chunks as [| p rest IH]; intros w c Hc; cbn [copyChunks].
  - intros [= <- <-]. split; [apply same_behaviour_refl |]. split; [reflexivity |].
    exists []. rewrite app_nil_r. auto.
  - unfold Write at 1, File_Writer at 1. cbn [fw_file fw_world].
    destruct (write_ok w f) eqn:Hw.
    + intros H. eapply IH in H as (Hb & Hother & written & Hfile & Hall).
      2: { cbn [files set_fs_state]. rewrite Hc. cbn [default from_option id].
           apply lookup_insert_eq. }
      split; [exact Hb |]. split.
      * intros g Hg. rewrite (Hother g Hg). cbn [files set_fs_state].
        apply lookup_insert_ne. congruence.
      * exists (p ++ written). rewrite app_assoc. split; [exact Hfile |].
        intros Hok. rewrite (Hall Hok). reflexivity.
    + intros [= <- <-]. split; [apply same_behaviour_refl |]. split; [reflexivity |].
      exists []. rewrite app_nil_r. split; [exact Hc | discriminate].
Qed.

Lemma copyChunks_file_cons (p : list byte) (rest : list (list byte)) (f : string) (w : World) :
  copyChunks {| fw_file := f; fw_world := w |} (p :: rest)
  = if write_ok w f
    then copyChunks
           {| fw_file := f;
              fw_world := set_fs_state w (<[f := default [] (files w !! f) ++ p]> (files w))
                                       (open_files w) |} rest
    else ({| fw_file := f; fw_world := w |}, false).
Proof.
  cbn [copyChunks]. unfold Write at 1, File_Writer at 1. cbn [fw_file fw_world].
  destruct (write_ok w f); reflexivity.
Qed.

(** Whether a copy to a file succeeds depends on the chunks and on
    whether the file can be written, not on what the disk holds. *)
Lemma copyChunks_ok_indep (chunks : list (list byte)) (f : string) (wa wb : World) :
  write_ok wa f = write_ok wb f ->
  snd (copyChunks {| fw_file := f; fw_world := wa |} chunks)
  = snd (copyChunks {| fw_file := f; fw_world := wb |} chunks).
Proof.
  revert wa wb. induction chunks as [| p rest IH]; intros wa wb Hw.
  - reflexivity.
  - rewrite !copyChunks_file_cons, <- Hw. destruct (write_ok wa f) eqn:Ha.
    + apply IH. cbn. congruence.
    + reflexivity.
Qed.

Section SyncMore.

Context {L : Lib}.

Lemma toGOB64_cases (xs : list (Episode Time)) :
  (gob_Encode xs = None /\ toGOB64 xs = (nilReader, Some ErrLibrary)) \/
  (exists b, gob_Encode xs = Some b /\ toGOB64 xs = (bufferReader (base64.Encode b), None)).
Proof.
  destruct (gob_Encode xs) as [b |] eqn:E.
  - right. exists b. split; [reflexivity | apply toGOB64_encoded, E].
  - left. split; [reflexivity |]. unfold toGOB64. rewrite E. reflexivity.
Qed.

Lemma bufferReader_chunks (b : list byte) : concat (rd_chunks (bufferReader b)) = b.
Proof. apply rd_data_bufferReader. Qed.

(** What the stages after the fetch do to the disk, by outcome. *)
Lemma Sync_fetched_files (p : Podcast) (resp : Response) (w : World)
    (err : option error) (p' : Podcast) (w' : World) :
  Sync_fetched p resp w = (err, p', w') ->
  let path := filepath_Join (Path p) ".feed" in
  same_behaviour w w' /\
  (forall g, g <> path -> files w' !! g = files w !! g) /\
  match err with
  | None =>
    exists b, gob_Encode (Episodes p') = Some b /\
              files w' !! path = Some (base64.Encode b)
  | Some ErrParserIssue => files w' = files w
  | Some ErrEncodeError =>
    gob_Encode (Episodes p') = None /\ files w' !! path = Some []
  | Some ErrFilesystemError => True
  | Some _ => False
  end.
Proof.
  intros HS path. revert HS. unfold Sync_fetched.
  destruct (parseEpisodes (Body resp)) as [episodes perr].
  destruct perr as [e |].
  { intros [= <- <- <-]. repeat split. }
  unfold os_MkdirAll. cbn [Path set_Episodes]. fold path.
  destruct (mkdir_ok w (Path p)); cbn [negb].
  2: { intros [= <- <- <-]. repeat split. }
  unfold os_Create. destruct (create_ok w path).
  2: { intros [= <- <- <-]. repeat split. }
  set (w1 := set_fs_state w _ _).
  assert (Hnew : files w1 !! path = Some []) by apply lookup_insert_eq.
  assert (Hother : forall g, g <> path -> files w1 !! g = files w !! g).
  { intros g Hg. apply lookup_insert_ne. congruence. }
  cbn [Episodes set_Episodes].
  destruct (toGOB64_cases episodes) as [[Hnone ->] | [b [Hb ->]]].
  { intros [= <- <- <-]. cbn [Episodes set_Episodes files File_Close
      Body_Close set_fs_state set_net_state].
    repeat split; assumption. }
  unfold io_Copy.
  destruct (copyChunks _ (rd_chunks (bufferReader (base64.Encode b)))) as [fw ok] eqn:C.
  destruct (copyChunks_file_full _ _ _ _ _ _ Hnew C) as (Hbeh & Hframe & written & Hfile & Hall).
  cbn [rd_err bufferReader negb andb]. rewrite andb_true_r.
  assert (Hb' : same_behaviour w (fw_world fw)).
  { eapply same_behaviour_trans; [| exact Hbeh]. repeat split. }
  destruct ok; intros [= <- <- <-];
    cbn [Episodes set_Episodes files File_Close Body_Close set_fs_state set_net_state
         net mkdir_ok create_ok open_ok write_ok].
  - split; [exact Hb' |]. split.
    + intros g Hg. rewrite (Hframe g Hg). apply Hother, Hg.
    + exists b. split; [exact Hb |]. rewrite Hfile, (Hall eq_refl).
      rewrite bufferReader_chunks. reflexivity.
  - split; [exact Hb' |]. split; [| exact I].
    intros g Hg. rewrite (Hframe g Hg). apply Hother, Hg.
Qed.

(** How a call of [Sync] ends: before the body is read, with the podcast
    and the disk as they were, or in the stages after a 200. *)
Lemma Sync_cases (p : Podcast) (w : World) (err : option error) (p' : Podcast) (w' : World) :
  Sync p w = (err, p', w') ->
  (p' = p /\ files w' = files w /\ open_files w' = open_files w /\ same_behaviour w w' /\
   (err = Some ErrCouldNotSync \/ err = Some ErrRequestFailed \/
    err = Some ErrAccessDenied \/ err = Some ErrFeedNotFound)) \/
  (exists req resp w1,
     Sync_request p = Some req /\ client_Do req w = (Some resp, w1) /\
     StatusCode resp = 200%Z /\ Sync_fetched p resp w1 = (err, p', w') /\
     files w1 = files w /\ open_files w1 = open_files w /\ same_behaviour w w1).
Proof.
  intros HS.
  destruct (Sync_request p) as [req |] eqn:Hreq.
  2: { unfold Sync in HS. rewrite Hreq in HS. injection HS as <- <- <-.
       left. repeat split; auto. }
  destruct (client_Do req w) as [[resp |] w1] eqn:Hdo.
  2: { unfold Sync in HS. rewrite Hreq, Hdo in HS. injection HS as <- <- <-.
       unfold client_Do in Hdo. destruct (net w req) as [[? ?] |]; [discriminate |].
       injection Hdo as <-. left. repeat split; auto. }
  rewrite (Sync_on_response p w w1 req resp Hreq Hdo) in HS.
  assert (Hw1 : files w1 = files w /\ open_files w1 = open_files w /\ same_behaviour w w1).
  { unfold client_Do in Hdo. destruct (net w req) as [[? ?] |]; [| discriminate].
    injection Hdo as _ <-. repeat split. }
  destruct Hw1 as (Hf & Ho & Hb).
  unfold fetchOutcome in HS.
  destruct (decide (StatusCode resp = 200%Z)) as [H200 | H200].
  - right. exists req, resp, w1.
    split; [reflexivity |]. split; [exact Hdo |]. split; [exact H200 |].
    split; [exact HS |]. split; [exact Hf |]. split; [exact Ho | exact Hb].
  - left. repeat case_decide; injection HS as <- <- <-;
      (split; [reflexivity |]; split; [exact Hf |]; split; [exact Ho |];
       split; [exact Hb | auto]).
Qed.

(** X3. After a successful [Sync] the cache file [<Path>/.feed] holds
    exactly the base64 text of the gob encoding of the episodes now in
    memory, and no other file has changed. *)
Theorem Sync_cache_contents (p : Podcast) (w : World) (p' : Podcast) (w' : World) :
  Sync p w = (None, p', w') ->
  let path := filepath_Join (Path p) ".feed" in
  (exists b, gob_Encode (Episodes p') = Some b /\
             files w' !! path = Some (base64.Encode b)) /\
  (forall g, g <> path -> files w' !! g = files w !! g).
Proof.
  intros HS path.
  destruct (Sync_cases _ _ _ _ _ HS) as [(_ & _ & _ & _ & Herr) | (req & resp & w1 & _ & _ & _ & HF & Hf & _)].
  { decompose [or] Herr; discriminate. }
  apply Sync_fetched_files in HF as (_ & Hframe & Hfile).
  split; [exact Hfile |]. intros g Hg. rewrite (Hframe g Hg), Hf. reflexivity.
Qed.

(** X4. A [Sync] that fails before it persists (the request cannot be
    built, the transport fails, the status is not 200, the feed does not
    parse) leaves every file as it was: the cache of an earlier [Sync]
    survives. *)
Theorem Sync_failure_keeps_disk (p : Podcast) (w : World)
    (e : error) (p' : Podcast) (w' : World) :
  Sync p w = (Some e, p', w') ->
  e <> ErrFilesystemError -> e <> ErrEncodeError ->
  files w' = files w.
Proof.
  intros HS Hfs Henc.
  destruct (Sync_cases _ _ _ _ _ HS) as [(_ & Hf & _) | (req & resp & w1 & _ & _ & _ & HF & Hf & _)].
  { exact Hf. }
  apply Sync_fetched_files in HF as (_ & _ & Hfile).
  destruct e; try contradiction; try congruence.
Qed.

(** X5. When gob cannot encode the extracted episodes, [Sync] fails with
    the encode error after it has created the cache file: the cache file is
    left empty, whatever it held. *)
Theorem Sync_encode_failure_empties_cache (p : Podcast) (w : World)
    (p' : Podcast) (w' : World) :
  Sync p w = (Some ErrEncodeError, p', w') ->
  gob_Encode (Episodes p') = None /\
  files w' !! filepath_Join (Path p) ".feed" = Some [].
Proof.
  intros HS.
  destruct (Sync_cases _ _ _ _ _ HS) as [(_ & _ & _ & _ & Herr) | (req & resp & w1 & _ & _ & _ & HF & _)].
  { decompose [or] Herr; discriminate. }
  apply Sync_fetched_files in HF as (_ & _ & Hfile). exact Hfile.
Qed.

(** X6. [Sync] closes the cache file on every exit path: the files open
    after the call are those open before it. *)
Theorem Sync_closes_cache_file (p : Podcast) (w : World) :
  open_files (snd (Sync p w)) = open_files w.
Proof.
  destruct (Sync p w) as [[err p'] w'] eqn:HS. cbn [snd].
  destruct (Sync_cases _ _ _ _ _ HS) as [(_ & _ & Ho & _) | (req & resp & w1 & _ & _ & _ & HF & _ & Ho & _)].
  { exact Ho. }
  apply Sync_fetched_spec in HF as (_ & _ & _ & Ho' & _). congruence.
Qed.

(** X7. [Sync] followed by [Load]: after a successful [Sync], if the
    cache file can be opened and gob decodes what it encoded, [Load] on the
    same path succeeds and gives the episodes [Sync] left in memory,
    whatever the podcast held before the [Load]. *)
Theorem Sync_then_Load (p : Podcast) (w : World) (p' : Podcast) (w' : World)
    (b : list byte) :
  Sync p w = (None, p', w') ->
  gob_Encode (Episodes p') = Some b ->
  gob_Decode {| rd_chunks := [b]; rd_err := false |} = Some (Episodes p') ->
  open_ok w (filepath_Join (Path p) ".feed") = true ->
  forall prior, Load (set_Episodes p prior) w' = (None, p', w').
Proof.
  intros HS Henc Hdec Hopen prior.
  destruct (Sync_cases _ _ _ _ _ HS) as [(_ & _ & _ & _ & Herr) | (req & resp & w1 & _ & _ & _ & HF & _ & _ & Hb1)].
  { decompose [or] Herr; discriminate. }
  pose proof HF as Hspec. apply Sync_fetched_spec in Hspec as (Hp & _).
  apply Sync_fetched_files in HF as (Hb2 & _ & b' & Henc' & Hfile).
  assert (b' = b) by congruence. subst b'.
  assert (Hopen' : open_ok w' (filepath_Join (Path p) ".feed") = true).
  { destruct Hb1 as (_ & _ & _ & Ho1 & _). destruct Hb2 as (_ & _ & _ & Ho2 & _).
    rewrite Ho2, Ho1. exact Hopen. }
  rewrite (Load_decodes (set_Episodes p prior) w' (base64.Encode b) (Episodes p')).
  - rewrite Hp. reflexivity.
  - exact Hfile.
  - exact Hopen'.
  - unfold fromGOB64. rewrite NewDecoder_blob, Hdec. reflexivity.
Qed.

(** The error of the stages after the fetch depends on the response and
    on how the file system answers, not on the episodes in memory or on the
    files on disk. *)
Lemma Sync_fetched_err_indep (p : Podcast) (resp : Response) (wa wb : World)
    (prior : list (Episode Time)) :
  same_behaviour wa wb ->
  fst (fst (Sync_fetched (set_Episodes p prior) resp wb)) = fst (fst (Sync_fetched p resp wa)).
Proof.
  intros (_ & Hm & Hc & _ & Hw). unfold Sync_fetched.
  destruct (parseEpisodes (Body resp)) as [episodes [e |]]; [reflexivity |].
  unfold os_MkdirAll, os_Create. cbn [Path set_Episodes Episodes]. rewrite Hm, Hc.
  destruct (mkdir_ok wa (Path p)); [| reflexivity]. cbn [negb].
  destruct (create_ok wa _); [| reflexivity].
  destruct (toGOB64 episodes) as [blob [e |]]; [reflexivity |].
  unfold io_Copy.
  set (f := filepath_Join (Path p) ".feed").
  pose proof (copyChunks_ok_indep (rd_chunks blob) f
                (set_fs_state wa (<[f := []]> (files wa)) (f :: open_files wa))
                (set_fs_state wb (<[f := []]> (files wb)) (f :: open_files wb))) as Hok.
  cbn [write_ok set_fs_state] in Hok. rewrite Hw in Hok. specialize (Hok eq_refl).
  destruct (copyChunks _ (rd_chunks blob)) as [fwa oka].
  destruct (copyChunks _ (rd_chunks blob)) as [fwb okb].
  cbn [snd] in Hok. subst okb. destruct oka, (rd_err blob); reflexivity.
Qed.

(** X8. [Sync] is idempotent: run again on what a successful [Sync] left
    (the same server, the same file system), it succeeds again, leaves the
    same podcast in memory and the same files on disk. *)
Theorem Sync_idempotent (p : Podcast) (w : World) (p1 : Podcast) (w1 : World) :
  Sync p w = (None, p1, w1) ->
  fst (Sync p1 w1) = (None, p1) /\ files (snd (Sync p1 w1)) = files w1.
Proof.
  intros HS.
  destruct (Sync_cases _ _ _ _ _ HS)
    as [(_ & _ & _ & _ & Herr) | (req & resp & w0 & Hreq & Hdo & H200 & HF & _ & _ & Hb0)].
  { decompose [or] Herr; discriminate. }
  pose proof HF as Hspec. apply Sync_fetched_spec in Hspec as (Hp1 & _).
  pose proof HF as Hfiles. apply Sync_fetched_files in Hfiles as (Hb1 & _ & b & Hb & Hfile).
  apply client_Do_response in Hdo as (Hrr & Hnet & _).
  assert (Hreq1 : Sync_request p1 = Some req) by (rewrite Hp1; exact Hreq).
  assert (Hbw : same_behaviour w w1) by (eapply same_behaviour_trans; eassumption).
  assert (Hdo1 : client_Do req w1
                 = (Some resp, set_net_state w1 (sent w1 ++ [req])
                                 (Request_URL req :: open_bodies w1))).
  { unfold client_Do. destruct Hbw as (Hn & _). rewrite Hn, Hnet.
    rewrite <- Hrr. destruct resp; reflexivity. }
  rewrite (Sync_on_response p1 w1 _ req resp Hreq1 Hdo1).
  unfold fetchOutcome. rewrite decide_True by exact H200.
  set (w1' := set_net_state w1 _ _).
  destruct (Sync_fetched p1 resp w1') as [[err2 p2] w2] eqn:HF2. cbn [fst snd].
  assert (Herr2 : err2 = None).
  { pose proof (Sync_fetched_err_indep p resp w0 w1' (Episodes p1)) as Hi.
    assert (Hp1' : set_Episodes p (Episodes p1) = p1) by (rewrite Hp1; reflexivity).
    rewrite Hp1', HF2, HF in Hi. cbn [fst] in Hi. apply Hi.
    eapply same_behaviour_trans; [exact Hb1 |]. repeat split. }
  subst err2.
  pose proof HF2 as Hspec2. apply Sync_fetched_spec in Hspec2 as (Hp2 & _).
  assert (Hp21 : p2 = p1) by (rewrite Hp2, Hp1; reflexivity).
  apply Sync_fetched_files in HF2 as (_ & Hframe2 & b2 & Hb2 & Hfile2).
  clear Hp2. subst p2. assert (b2 = b) by congruence. subst b2.
  split; [reflexivity |].
  assert (Hpath : Path p1 = Path p) by (rewrite Hp1; reflexivity).
  rewrite Hpath in Hfile2, Hframe2.
  apply map_eq. intros g.
  destruct (decide (g = filepath_Join (Path p) ".feed")) as [-> | Hg].
  - rewrite Hfile2, Hfile. reflexivity.
  - rewrite (Hframe2 g Hg). reflexivity.
Qed.

(** X17. After a status 200 [Sync] closes the response body on every
    exit path: success, a feed that does not parse, a failure to persist. *)
Theorem Sync_closes_body_after_200 (p : Podcast) (w w1 : World) (req : Request)
    (resp : Response) :
  Sync_request p = Some req ->
  client_Do req w = (Some resp, w1) ->
  StatusCode resp = 200%Z ->
  open_bodies (snd (Sync p w)) = open_bodies w.
Proof.
  intros Hreq Hdo H200. rewrite (Sync_on_response p w w1 req resp Hreq Hdo).
  unfold fetchOutcome. rewrite decide_True by exact H200.
  apply client_Do_response in Hdo as (Hr & _ & Hb).
  destruct (Sync_fetched p resp w1) as [[err p'] w'] eqn:F.
  apply Sync_fetched_spec in F as (_ & _ & Ho & _). cbn [snd].
  rewrite Ho, Hr, Hb. apply release_head.
Qed.

End SyncMore.

(** * More about Download *)

(** Copying to a file and an observer, seen from the other files and the
    handles. *)
Lemma copyChunks_tee_frame (chunks : list (list byte)) (f : string) (w : World)
    (o : Observer) (mw : FileWriter * Observer) (ok : bool) :
  copyChunks ({| fw_file := f; fw_world := w |}, o) chunks = (mw, ok) ->
  same_handles w (fw_world (fst mw)) /\
  (forall g, g <> f -> files (fw_world (fst mw)) !! g = files w !! g).
Proof.
  revert w o. induction chunks as [| p rest IH]; intros w o; cbn [copyChunks].
  - intros [= <- <-]. split; [apply same_handles_refl | reflexivity].
  - unfold Write at 1, MultiWriter at 1. cbn [fst snd].
    unfold Write at 1, File_Writer at 1. cbn [fw_file fw_world].
    destruct (write_ok w f).
    + unfold Write at 1, Observer_Writer at 1.
      destruct (obs_fails o (obs_seen o) p); cbn [negb].
      * intros [= <- <-]. cbn [fst fw_world]. split; [repeat split |].
        intros g Hg. apply lookup_insert_ne. congruence.
      * intros H. apply IH in H as [Hh Hother]. split.
        -- eapply same_handles_trans; [| exact Hh]. repeat split.
        -- intros g Hg. rewrite (Hother g Hg). apply lookup_insert_ne. congruence.
    + intros [= <- <-]. split; [apply same_handles_refl | reflexivity].
Qed.

Section DownloadMore.

Context {L : Lib}.

(** What [http.Get] does to the world. *)
Lemma http_Get_cases (url : string) (w : World) :
  (http_Get url w = (None, w) /\ url_Parse_ok url = false) \/
  (url_Parse_ok url = true /\
   let req := {| Method := "GET"; Request_URL := url; BasicAuth := None |} in
   (net w req = None /\
    http_Get url w = (None, set_net_state w (sent w ++ [req]) (open_bodies w))) \/
   (exists status body,
      net w req = Some (status, body) /\
      http_Get url w =
        (Some {| StatusCode := status; Body := body; Response_Request := req |},
         set_net_state w (sent w ++ [req]) (url :: open_bodies w)))).
Proof.
  unfold http_Get, http_NewRequest. destruct (url_Parse_ok url).
  - right. split; [reflexivity |]. cbv zeta. unfold client_Do.
    destruct (net w _) as [[status body] |].
    + right. exists status, body. split; reflexivity.
    + left. split; reflexivity.
  - left. split; reflexivity.
Qed.

(** The footprint of [Download] on the world, on every exit path. *)
Lemma Download_frame (e : Episode Time) (path : string) (writer : option Observer)
    (w : World) :
  let r := Download e path writer w in
  let fpath := filepath_Join path (List.last (strings_Split (URL e) "/") "") in
  open_bodies (snd r) = open_bodies w /\
  open_files (snd r) = open_files w /\
  (forall g, g <> fpath -> files (snd r) !! g = files w !! g) /\
  (fst (fst r) = None \/ fst (fst r) = Some ErrCouldNotDownload) /\
  (sent (snd r) = sent w \/
   sent (snd r) = sent w ++ [{| Method := "GET"; Request_URL := URL e; BasicAuth := None |}]).
Proof.
  intros r fpath. subst r. unfold Download.
  destruct (http_Get_cases (URL e) w) as [[-> _] | [_ [[_ ->] | (status & body & _ & ->)]]].
  1, 2: cbn; repeat split; auto.
  cbn [StatusCode Body].
  destruct (negb (status =? 200)%Z).
  { cbn -[release]. rewrite release_head. repeat split; auto. }
  fold fpath. unfold os_Create. cbn [create_ok set_net_state].
  destruct (create_ok w fpath).
  2: { cbn -[release]. rewrite release_head. repeat split; auto. }
  set (w2 := set_fs_state _ _ _).
  assert (F2 : forall g, g <> fpath -> files w2 !! g = files w !! g).
  { intros g Hg. unfold w2. cbn. apply lookup_insert_ne. congruence. }
  destruct writer as [o |].
  - unfold io_Copy.
    destruct (copyChunks _ (rd_chunks body)) as [mw' ok'] eqn:C'.
    apply copyChunks_tee_frame in C' as [(Hs & Hb & Hf) Hother].
    cbn -[release]. rewrite Hs, Hb, Hf. unfold w2. cbn -[release].
    rewrite !release_head. repeat split; auto.
    + intros g Hg. rewrite (Hother g Hg). apply F2, Hg.
    + destruct (ok' && negb (rd_err body)); auto.
  - unfold io_Copy.
    destruct (copyChunks _ (rd_chunks body)) as [fw' ok'] eqn:C'.
    pose proof C' as C''. apply copyChunks_file_frame in C' as [_ (Hs & Hb & Hf)].
    assert (Hnew : files w2 !! fpath = Some []) by apply lookup_insert_eq.
    destruct (copyChunks_file_full _ _ _ _ _ _ Hnew C'') as (_ & Hother & _).
    cbn -[release]. cbn -[release] in Hs, Hb, Hf. rewrite Hs, Hb, Hf.
    rewrite !release_head. repeat split; auto.
    + intros g Hg. rewrite (Hother g Hg). apply F2, Hg.
    + destruct (ok' && negb (rd_err body)); auto.
Qed.

(** X9. [Download] releases what it opens on every exit path: after the
    call the response bodies and the files that are open are those that
    were open before it, whether it succeeded or failed. *)
Theorem Download_releases_handles (e : Episode Time) (path : string)
    (writer : option Observer) (w : World) :
  open_bodies (snd (Download e path writer w)) = open_bodies w /\
  open_files (snd (Download e path writer w)) = open_files w.
Proof.
  destruct (Download_frame e path writer w) as (Hb & Hf & _). split; assumption.
Qed.

(** X10. The footprint of [Download]: whatever happens, no file other
    than the destination file is created or changed, the only error it
    returns is the could-not-download error, and it sends at most one
    request, a GET of the episode URL without credentials. *)
Theorem Download_footprint (e : Episode Time) (path : string)
    (writer : option Observer) (w : World) :
  let r := Download e path writer w in
  let fpath := filepath_Join path (List.last (strings_Split (URL e) "/") "") in
  (forall g, g <> fpath -> files (snd r) !! g = files w !! g) /\
  (fst (fst r) = None \/ fst (fst r) = Some ErrCouldNotDownload) /\
  (sent (snd r) = sent w \/
   sent (snd r) = sent w ++ [{| Method := "GET"; Request_URL := URL e; BasicAuth := None |}]).
Proof.
  destruct (Download_frame e path writer w) as (_ & _ & H). exact H.
Qed.

(** X11. When the fetch of the media URL fails or returns a status other
    than 200, [Download] fails with the could-not-download error, creates
    and changes no file, and hands nothing to the observer. *)
Theorem Download_without_200 (e : Episode Time) (path : string)
    (writer : option Observer) (w : World) :
  (forall res, fst (http_Get (URL e) w) = Some res -> StatusCode res <> 200%Z) ->
  fst (Download e path writer w) = (Some ErrCouldNotDownload, writer) /\
  files (snd (Download e path writer w)) = files w.
Proof.
  intros Hno. unfold Download.
  destruct (http_Get (URL e) w) as [[res |] w1] eqn:Hget.
  - apply http_Get_frame in Hget as Hframe. destruct Hframe as (Hfiles & _).
    specialize (Hno res eq_refl).
    destruct (Z.eqb_spec (StatusCode res) 200) as [E | _]; [contradiction |].
    cbn. split; [reflexivity | exact Hfiles].
  - destruct (http_Get_cases (URL e) w) as [[E _] | [_ [[_ E] | (status & body & _ & E)]]];
      rewrite E in Hget; try discriminate; injection Hget as <-; split; reflexivity.
Qed.

Lemma copyChunks_tee_first_fails (f : string) (w : World) (o : Observer)
    (c : list byte) (rest : list (list byte)) :
  write_ok w f = true ->
  obs_fails o (obs_seen o) c = true ->
  copyChunks ({| fw_file := f; fw_world := w |}, o) (c :: rest)
  = (({| fw_file := f;
         fw_world := set_fs_state w (<[f := default [] (files w !! f) ++ c]> (files w))
                                  (open_files w) |},
      {| obs_seen := obs_seen o ++ c; obs_fails := obs_fails o |}), false).
Proof.
  intros Hw Hf. cbn [copyChunks].
  unfold Write at 1, MultiWriter at 1. cbn [fst snd].
  unfold Write at 1, File_Writer at 1. cbn [fw_file fw_world]. rewrite Hw.
  unfold Write at 1, Observer_Writer at 1. rewrite Hf. reflexivity.
Qed.

(** X18. An observer that fails on the first chunk aborts the download:
    [Download] returns the could-not-download error, the observer was
    handed that chunk, and the destination file stays on disk holding that
    chunk (the file is written before the observer, and a partial file is
    not removed). *)
Theorem Download_observer_failure (e : Episode Time) (path : string) (o : Observer)
    (w w1 : World) (res : Response) (c : list byte) (rest : list (list byte)) :
  http_Get (URL e) w = (Some res, w1) ->
  StatusCode res = 200%Z ->
  rd_chunks (Body res) = c :: rest ->
  let fpath := filepath_Join path (List.last (strings_Split (URL e) "/") "") in
  create_ok w fpath = true ->
  write_ok w fpath = true ->
  obs_fails o (obs_seen o) c = true ->
  let r := Download e path (Some o) w in
  fst (fst r) = Some ErrCouldNotDownload /\
  files (snd r) !! fpath = Some c /\
  obs_seen <$> snd (fst r) = Some (obs_seen o ++ c).
Proof.
  intros Hget Hstatus Hchunks fpath Hcreate Hwrite Hfail r. subst r.
  apply http_Get_frame in Hget as Hframe. destruct Hframe as (_ & _ & Hc1 & Hw1 & _).
  unfold Download. rewrite Hget, Hstatus. cbn [Z.eqb Pos.eqb negb].
  fold fpath. unfold os_Create. rewrite Hc1, Hcreate.
  unfold io_Copy. rewrite Hchunks.
  rewrite copyChunks_tee_first_fails;
    [| cbn [write_ok set_fs_state]; rewrite Hw1; exact Hwrite | exact Hfail].
  cbn [negb fst snd fw_world files File_Close Body_Close set_fs_state set_net_state
       obs_seen andb].
  split; [reflexivity |]. split; [| reflexivity].
  rewrite lookup_insert_eq. rewrite lookup_insert_eq. reflexivity.
Qed.

End DownloadMore.

(** * More about the file name *)

Lemma noSlash_inv (c : ascii) (s : string) :
  noSlash (String c s) -> c <> "/"%char /\ noSlash s.
Proof.
  intros H. split.
  - intros ->. apply (H "" s). reflexivity.
  - intros pre post ->. apply (H (String c pre) post). reflexivity.
Qed.

Lemma Split_from_noSlash (s cur : string) :
  noSlash s -> List.last (Split_from "/" s 0 cur) "" = (cur ++ s)%string.
Proof.
  revert cur. induction s as [| c s IH]; intros cur Hs; cbn [Split_from].
  - cbn [List.last]. rewrite append_empty_r. reflexivity.
  - apply noSlash_inv in Hs as [Hc Hs].
    rewrite prefix_slash_ne by exact Hc. rewrite IH by exact Hs.
    apply append_assoc.
Qed.

Lemma Split_from_after_slash (pre name cur : string) :
  noSlash name ->
  List.last (Split_from "/" (pre ++ "/" ++ name) 0 cur) "" = name.
Proof.
  intros Hname. revert cur. induction pre as [| c pre IH]; intros cur.
  - change ("" ++ "/" ++ name)%string with (String "/" name).
    cbn [Split_from]. rewrite prefix_slash_eq. cbn [String.length Nat.sub].
    rewrite last_cons_nonempty by apply Split_from_nonempty.
    apply (Split_from_noSlash name "" Hname).
  - rewrite append_cons. cbn [Split_from].
    destruct (Ascii.ascii_dec c "/") as [-> | Hc].
    + rewrite prefix_slash_eq. cbn [String.length Nat.sub].
      rewrite last_cons_nonempty by apply Split_from_nonempty. apply IH.
    + rewrite prefix_slash_ne by exact Hc. apply IH.
Qed.

Lemma noSlash_forallb (s : string) :
  forallb (fun c => negb (Ascii.eqb c "/")) (list_ascii_of_string s) = true -> noSlash s.
Proof.
  induction s as [| c s IH]; cbn [list_ascii_of_string forallb].
  - intros _. apply noSlash_empty.
  - intros H. apply andb_prop in H as [Hc Hs].
    apply noSlash_cons; [| apply IH, Hs].
    destruct (Ascii.eqb_spec c "/"); [discriminate Hc | assumption].
Qed.

(** X12. The name [Download] gives the file is what follows the last
    slash of the URL: for a URL [pre/name] with no slash in [name] it is
    [name], so it is empty when the URL ends in a slash; for a URL without
    any slash it is the whole URL. *)
Theorem Download_file_name (url pre name : string) :
  noSlash name ->
  (url = (pre ++ "/" ++ name)%string -> List.last (strings_Split url "/") "" = name) /\
  (url = name -> List.last (strings_Split url "/") "" = url) /\
  List.last (strings_Split (pre ++ "/") "/") "" = "".
Proof.
  intros Hname. unfold strings_Split. repeat split.
  - intros ->. apply Split_from_after_slash, Hname.
  - intros ->. apply (Split_from_noSlash name "" Hname).
  - apply (Split_from_after_slash pre "" ""), noSlash_empty.
Qed.

(** * More about the listing *)

Section ListingMore.

Context {L : Lib}.

Lemma shownTitle_length (e : Episode Time) :
  String.length (shownTitle e) <= titleLength /\
  String.length (shownTitle e) <= String.length (Title e).
Proof.
  unfold shownTitle.
  destruct (Nat.ltb_spec titleLength (String.length (Title e))) as [Hlong | Hshort].
  - rewrite length_append, length_substring_0; unfold titleLength in *; cbn; lia.
  - lia.
Qed.

(** X13. No shown title is wider than the title column: for every episode
    of the list its shown title has at most [titleColumn] bytes, so where
    the rune count of the shown title is its byte length (an ASCII title),
    the padded title cell has exactly [titleColumn] bytes and the columns
    of the listing line up. *)
Theorem shownTitle_fits_column (episodes : list (Episode Time)) (e : Episode Time) :
  In e episodes ->
  String.length (shownTitle e) <= titleColumn episodes /\
  (utf8_RuneCountInString (shownTitle e) = String.length (shownTitle e) ->
   String.length (padRight (titleColumn episodes) (shownTitle e)) = titleColumn episodes).
Proof.
  intros Hin.
  assert (Hfit : String.length (shownTitle e) <= titleColumn episodes).
  { pose proof (shownTitle_length e) as [H60 Hle].
    pose proof (maxTitle_ge episodes e Hin) as Hmax.
    unfold titleColumn. rewrite longestTitle_max.
    destruct (Nat.ltb_spec titleLength (maxTitle episodes)); lia. }
  split; [exact Hfit |].
  intros Hrunes. unfold padRight. rewrite length_append, Hrunes.
  assert (Hsp : forall n, String.length (spaces n) = n).
  { induction n as [| n IH]; cbn; [reflexivity | rewrite IH; reflexivity]. }
  rewrite Hsp. lia.
Qed.

Lemma concat_cons (x : string) (xs : list string) :
  String.concat "" (x :: xs) = (x ++ String.concat "" xs)%string.
Proof.
  destruct xs as [| y ys]; [| reflexivity].
  cbn [String.concat]. symmetry. apply append_empty_r.
Qed.

Lemma listingRows_closed (tl index : nat) (episodes : list (Episode Time)) (sb : string) :
  listingRows tl index episodes sb
  = (sb ++ String.concat "" (imap (fun k e => listingRow tl (index + k) e) episodes))%string.
Proof.
  revert index sb. induction episodes as [| e rest IH]; intros index sb.
  - cbn [listingRows imap String.concat]. symmetry. apply append_empty_r.
  - cbn [listingRows imap]. rewrite IH, append_assoc, concat_cons.
    replace (index + 0) with index by lia.
    assert (E : imap ((fun k e0 => listingRow tl (index + k) e0) ∘ S) rest
                = imap (fun k e0 => listingRow tl (S index + k) e0) rest).
    { apply imap_ext. intros k x _. cbn. f_equal. lia. }
    rewrite E. reflexivity.
Qed.

(** X14. The listing is the header line followed by one row per episode,
    in the order of [Episodes], the k-th row (from 0) numbered k + 1 and
    laid out with the one title column width computed for the whole list;
    with no episodes it is the header alone. *)
Theorem String_rows (p : Podcast) :
  String_ p
  = (("All episodes of " ++ Name p ++ " (id: " ++ fmt_d (ID p) ++ ")" ++ newline)
     ++ String.concat ""
          (imap (fun k e => listingRow (titleColumn (Episodes p)) k e) (Episodes p)))%string /\
  (Episodes p = [] ->
   String_ p = ("All episodes of " ++ Name p ++ " (id: " ++ fmt_d (ID p) ++ ")" ++ newline)%string).
Proof.
  unfold String_. split.
  - rewrite listingRows_closed. reflexivity.
  - intros ->. reflexivity.
Qed.

End ListingMore.

(** * More about the cache codec *)

Module b64more.
Import base64 b64facts.

Lemma encode_isBase64Char (i : N) : (i < 64)%N -> isBase64Char (encode i) = true.
Proof.
  intros Hi. unfold isBase64Char. rewrite (decodeMap_encode i Hi). reflexivity.
Qed.

Lemma padChar_isBase64Char : isBase64Char padChar = true.
Proof. reflexivity. Qed.

Lemma Encode_printable (src : list byte) : forallb isBase64Char (Encode src) = true.
Proof.
  induction src as [| a | a b | a b c rest IH] using list_ind3.
  - reflexivity.
  - destruct (block1 a) as (H1 & H2 & _).
    cbn [Encode forallb]. rewrite !encode_isBase64Char by assumption. reflexivity.
  - destruct (block2 a b) as (H1 & H2 & H3 & _).
    cbn [Encode forallb]. rewrite !encode_isBase64Char by assumption. reflexivity.
  - destruct (block3 a b c) as (H1 & H2 & H3 & H4 & _).
    cbn [Encode forallb]. rewrite !encode_isBase64Char by assumption.
    cbn [andb]. exact IH.
Qed.

Lemma Encode_length (src : list byte) :
  length (Encode src) = 4 * ((length src + 2) / 3).
Proof.
  induction src as [| a | a b | a b c rest IH] using list_ind3.
  - reflexivity.
  - reflexivity.
  - reflexivity.
  - cbn [Encode length]. rewrite IH. generalize (length rest). intros n. arith.
Qed.

End b64more.

Section CodecMore.

Context {L : Lib}.

(** X15. What [toGOB64] returns without an error is text: every byte is a
    character of the base64 alphabet or the padding character, there are
    four of them for every three bytes gob wrote (rounded up), and reading
    it never fails.  [toGOB64] fails exactly when gob fails to encode. *)
Theorem toGOB64_text (xs : list (Episode Time)) :
  match gob_Encode xs with
  | Some b =>
    exists blob, toGOB64 xs = (blob, None) /\
      forallb isBase64Char (rd_data blob) = true /\
      length (rd_data blob) = 4 * ((length b + 2) / 3) /\
      rd_err blob = false
  | None => snd (toGOB64 xs) <> None
  end.
Proof.
  destruct (gob_Encode xs) as [b |] eqn:E.
  - exists (bufferReader (base64.Encode b)).
    split; [apply toGOB64_encoded, E |].
    rewrite rd_data_bufferReader.
    split; [apply b64more.Encode_printable |].
    split; [apply b64more.Encode_length | reflexivity].
  - unfold toGOB64. rewrite E. discriminate.
Qed.

End CodecMore.

(** * More about extraction *)

Section ExtractionMore.

Context {L : Lib}.

Lemma extracted_none (items : list rss.Item) :
  Forall (fun item => dateParses item = false) items -> extracted items = [].
Proof.
  induction 1 as [| item items Hitem _ IH]; [reflexivity |].
  unfold extracted in *. cbn [omap list_omap]. unfold episodeOf at 1.
  unfold dateParses in Hitem.
  destruct (time_Parse rss_Layout (rss.Date_Date (rss.Item_Date item)));
    [discriminate | exact IH].
Qed.

Lemma extracted_cons_parses (item : rss.Item) (items : list rss.Item) (t : Time) :
  time_Parse rss_Layout (rss.Date_Date (rss.Item_Date item)) = Some t ->
  extracted (item :: items)
  = {| Title := rss.Title_Title (rss.Item_Title item);
       Date := t;
       URL := rss.Enclosure_URL (rss.Item_Enclosure item);
       Length := rss.Enclosure_Length (rss.Item_Enclosure item) |} :: extracted items.
Proof.
  intros Ht. unfold extracted. cbn [omap list_omap]. unfold episodeOf at 1.
  rewrite Ht. reflexivity.
Qed.

Lemma extracted_all (items : list rss.Item) :
  Forall (fun item => dateParses item = true) items ->
  map Title (extracted items) = map (fun item => rss.Title_Title (rss.Item_Title item)) items /\
  map URL (extracted items) = map (fun item => rss.Enclosure_URL (rss.Item_Enclosure item)) items /\
  map Length (extracted items)
  = map (fun item => rss.Enclosure_Length (rss.Item_Enclosure item)) items.
Proof.
  induction 1 as [| item items Hitem _ (IH1 & IH2 & IH3)]; [repeat split |].
  unfold dateParses in Hitem.
  destruct (time_Parse rss_Layout (rss.Date_Date (rss.Item_Date item))) as [t |] eqn:Ht;
    [| discriminate].
  rewrite (extracted_cons_parses item items t Ht).
  cbn [map Title URL Length]. rewrite IH1, IH2, IH3. repeat split.
Qed.

(** X16. The two ends of extraction.  A feed that parses but in which no
    date parses gives the empty sequence and no error, which is not the
    parse failure; a feed in which every date parses gives one episode per
    item, with the titles, URLs and lengths of the items in their order. *)
Theorem parseEpisodes_ends (content : Reader) (feed : rss.Feed) :
  rss_Parse content = Some feed ->
  let items := rss.Items (rss.Feed_Channel feed) in
  (Forall (fun item => dateParses item = false) items ->
   parseEpisodes content = ([], None)) /\
  (Forall (fun item => dateParses item = true) items ->
   snd (parseEpisodes content) = None /\
   map Title (fst (parseEpisodes content))
   = map (fun item => rss.Title_Title (rss.Item_Title item)) items /\
   map URL (fst (parseEpisodes content))
   = map (fun item => rss.Enclosure_URL (rss.Item_Enclosure item)) items /\
   map Length (fst (parseEpisodes content))
   = map (fun item => rss.Enclosure_Length (rss.Item_Enclosure item)) items).
Proof.
  intros Hparse items.
  assert (E : parseEpisodes content = (extracted items, None)).
  { unfold parseEpisodes. rewrite Hparse. fold items.
    rewrite parseEpisodes_loop. reflexivity. }
  rewrite E. cbn [fst snd]. split.
  - intros Hnone. rewrite (extracted_none items Hnone). reflexivity.
  - intros Hall. split; [reflexivity | apply extracted_all, Hall].
Qed.

End ExtractionMore.

(** * More of the package at work on the small instance *)

Lemma Load_success_witness :
  let p := Demo.podcast "http://feed.example/rss" "/pods/demo" in
  Episodes p = [Demo.episode0] /\
  @Load Demo.lib p DemoMore.world = (None, set_Episodes p [], DemoMore.world).
Proof.
  intros p. split; [reflexivity |].
  exact (proj1 (@Load_success Demo.lib p DemoMore.world (list_ascii_of_string "AA==") []
                  eq_refl eq_refl eq_refl)).
Defined.

Lemma Sync_cache_contents_witness :
  let p := Demo.podcast "http://feed.example/rss" "/pods/demo" in
  let r := @Sync Demo.lib p DemoMore.world in
  fst (fst r) = None /\
  exists b, Demo.encodeEpisodes (Episodes (snd (fst r))) = Some b /\
            files (snd r) !! "/pods/demo/.feed" = Some (base64.Encode b).
Proof.
  intros p r. split; [reflexivity |].
  assert (E : r = (None, snd (fst r), snd r)) by reflexivity.
  exact (proj1 (@Sync_cache_contents Demo.lib p DemoMore.world _ _ E)).
Defined.

Lemma Sync_failure_keeps_disk_witness :
  let p := Demo.podcast "http://feed.example/html" "/pods/demo" in
  let r := @Sync Demo.lib p DemoMore.world in
  fst (fst r) = Some ErrParserIssue /\
  files (snd r) !! "/pods/demo/.feed" = Some (list_ascii_of_string "AA==").
Proof.
  intros p r. split; [reflexivity |].
  assert (E : r = (Some ErrParserIssue, snd (fst r), snd r)) by reflexivity.
  rewrite (@Sync_failure_keeps_disk Demo.lib p DemoMore.world _ _ _ E);
    [reflexivity | discriminate | discriminate].
Defined.

Lemma Sync_encode_failure_empties_cache_witness :
  let p := Demo.podcast "http://feed.example/wordy" "/pods/demo" in
  let r := @Sync Demo.lib p DemoMore.world in
  files DemoMore.world !! "/pods/demo/.feed" = Some (list_ascii_of_string "AA==") /\
  fst (fst r) = Some ErrEncodeError /\
  files (snd r) !! "/pods/demo/.feed" = Some [].
Proof.
  intros p r. split; [reflexivity |]. split; [vm_compute; reflexivity |].
  assert (E : r = (Some ErrEncodeError, snd (fst r), snd r)) by (vm_compute; reflexivity).
  exact (proj2 (@Sync_encode_failure_empties_cache Demo.lib p DemoMore.world _ _ E)).
Defined.

Lemma Sync_then_Load_witness :
  let p := Demo.podcast "http://feed.example/rss" "/pods/demo" in
  let r := @Sync Demo.lib p Demo.world in
  map Title (Episodes (snd (fst r))) = ["First"; "Third"] /\
  @Load Demo.lib (set_Episodes p []) (snd r) = (None, snd (fst r), snd r).
Proof.
  intros p r. split; [reflexivity |].
  assert (E : r = (None, snd (fst r), snd r)) by reflexivity.
  refine (@Sync_then_Load Demo.lib p Demo.world _ _
            (default [] (Demo.encodeEpisodes (Episodes (snd (fst r))))) E _ _ _ []);
    vm_compute; reflexivity.
Defined.

Lemma Sync_idempotent_witness :
  let p := Demo.podcast "http://feed.example/rss" "/pods/demo" in
  let r := @Sync Demo.lib p Demo.world in
  fst (@Sync Demo.lib (snd (fst r)) (snd r)) = (None, snd (fst r)) /\
  files (snd (@Sync Demo.lib (snd (fst r)) (snd r))) = files (snd r).
Proof.
  intros p r.
  assert (E : r = (None, snd (fst r), snd r)) by reflexivity.
  exact (@Sync_idempotent Demo.lib p Demo.world _ _ E).
Defined.

Lemma Download_without_200_witness :
  let r := @Download Demo.lib DemoMore.brokenEpisode "/dl" (Some Demo.recorder) DemoMore.world in
  fst r = (Some ErrCouldNotDownload, Some Demo.recorder) /\
  files (snd r) = files DemoMore.world.
Proof.
  intros r.
  apply (@Download_without_200 Demo.lib DemoMore.brokenEpisode "/dl" (Some Demo.recorder)
           DemoMore.world).
  intros res H. vm_compute in H. injection H as <-. discriminate.
Defined.

Lemma Download_file_name_witness :
  List.last (strings_Split "http://media.example/a/one.mp3" "/") "" = "one.mp3" /\
  List.last (strings_Split "one.mp3" "/") "" = "one.mp3" /\
  List.last (strings_Split "http://media.example/a/" "/") "" = "".
Proof.
  destruct (Download_file_name "http://media.example/a/one.mp3" "http://media.example/a"
              "one.mp3" (noSlash_forallb "one.mp3" eq_refl)) as (H1 & _ & H3).
  destruct (Download_file_name "one.mp3" "" "one.mp3" (noSlash_forallb "one.mp3" eq_refl))
    as (_ & H2 & _).
  split; [exact (H1 eq_refl) | split; [exact (H2 eq_refl) | exact H3]].
Defined.

Lemma shownTitle_fits_column_witness :
  let episodes := [Demo.longEpisode; Demo.episode0] in
  @titleColumn Demo.lib episodes = 60 /\
  String.length (@padRight Demo.lib (@titleColumn Demo.lib episodes)
                   (@shownTitle Demo.lib Demo.longEpisode)) = @titleColumn Demo.lib episodes /\
  String.length (@padRight Demo.lib (@titleColumn Demo.lib episodes)
                   (@shownTitle Demo.lib Demo.episode0)) = @titleColumn Demo.lib episodes.
Proof.
  intros episodes. split; [reflexivity |]. split.
  - apply (@shownTitle_fits_column Demo.lib episodes Demo.longEpisode);
      [left; reflexivity | reflexivity].
  - apply (@shownTitle_fits_column Demo.lib episodes Demo.episode0);
      [right; left; reflexivity | reflexivity].
Defined.

Lemma parseEpisodes_ends_witness :
  @rss_Parse Demo.lib DemoMore.undatedFeed = Some DemoMore.undatedDocument /\
  @parseEpisodes Demo.lib DemoMore.undatedFeed = ([], None).
Proof.
  split; [reflexivity |].
  apply (proj1 (@parseEpisodes_ends Demo.lib DemoMore.undatedFeed DemoMore.undatedDocument
                  eq_refl)).
  repeat constructor.
Defined.

Lemma Sync_closes_body_after_200_witness :
  let p := Demo.podcast "http://feed.example/html" "/pods/demo" in
  let r := @Sync Demo.lib p Demo.world in
  fst (fst r) = Some ErrParserIssue /\ open_bodies (snd r) = [].
Proof.
  intros p r. split; [reflexivity |].
  apply (@Sync_closes_body_after_200 Demo.lib p Demo.world
           (snd (client_Do {| Method := "GET"; Request_URL := "http://feed.example/html";
                              BasicAuth := None |} Demo.world))
           {| Method := "GET"; Request_URL := "http://feed.example/html"; BasicAuth := None |}
           {| StatusCode := 200; Body := bufferReader (list_ascii_of_string "<html>");
              Response_Request :=
                {| Method := "GET"; Request_URL := "http://feed.example/html";
                   BasicAuth := None |} |});
    reflexivity.
Defined.

Lemma Download_observer_failure_witness :
  let r := @Download Demo.lib Demo.episode0 "/dl" (Some DemoMore.failing) Demo.world in
  fst (fst r) = Some ErrCouldNotDownload /\
  files (snd r) !! "/dl/one.mp3" = Some (list_ascii_of_string "ID3") /\
  obs_seen <$> snd (fst r) = Some (list_ascii_of_string "ID3").
Proof.
  intros r.
  apply (@Download_observer_failure Demo.lib Demo.episode0 "/dl" DemoMore.failing Demo.world
           (snd (@http_Get Demo.lib (URL Demo.episode0) Demo.world))
           {| StatusCode := 200; Body := Demo.mediaBody;
              Response_Request :=
                {| Method := "GET"; Request_URL := URL Demo.episode0; BasicAuth := None |} |}
           (list_ascii_of_string "ID3") [list_ascii_of_string "audio"]);
    reflexivity.
Defined.
